(** * Falling Lanes: the per-frame simulation of [src/app/page.tsx]

    A shallow embedding of the game logic that lives in the [useEffect]
    closure of [Page]: the lane model ([tryMoveLane] and the lane
    interpolation block of [loop]), the spawner ([spawnObstacle] and the
    spawn timer), the obstacle integrator and the collision test
    ([intersectsCube]), the difficulty curve, and the run state machine
    ([startGame], [endGame], [togglePause]).

    Numbers.  A JavaScript [number] is modelled as an exact rational [Q]:
    the arithmetic of the source is kept operation for operation, but the
    rounding of IEEE doubles is not modelled.  Every concrete input used
    below (dyadic fractions, small decimals far from a comparison
    threshold) behaves the same way under either reading; for the spawn
    timer this is checked on a binary64 copy of the two blocks involved
    ([Binary64]).

    Rendering.  The scene graph, camera, ground, lane lines, trail, rain
    and speed lines only read gameplay fields and write their own; they
    are left out of [World] and [loop].  The camera, the scrolling of the
    ground and lane lines, and the rain and speed lines are modelled on
    their own ([cameraStep], [worldMovement], [ambientFrame]), as are
    the input handlers and the numbers of the HUD.  Of a [THREE.Mesh] the
    model keeps what the game logic reads or writes: position, scale, the
    Y rotation, the box geometry parameters and the emissive intensity. *)

From Stdlib Require Import QArith Qminmax Qround ZArith List Bool String Lia Lqa.
From Stdlib Require Import Floats.
From Stdlib Require Import Qabs Sorted.
From Stdlib Require Import DecimalString DecimalPos DecimalFacts.
Import ListNotations.
Open Scope Q_scope.

(** ** JavaScript numbers and the [Math] / [THREE.MathUtils] helpers *)

Definition Qltb (a b : Q) : bool :=
  match a ?= b with Lt => true | _ => false end.

Definition Qleb (a b : Q) : bool :=
  match a ?= b with Gt => false | _ => true end.

Definition Qgtb (a b : Q) : bool := Qltb b a.

Infix "<?" := Qltb (at level 70, no associativity) : Q_scope.
Infix "<=?" := Qleb (at level 70, no associativity) : Q_scope.
Infix ">?" := Qgtb (at level 70, no associativity) : Q_scope.

Definition Math_min (a b : Q) : Q := Qmin a b.
Definition Math_max (a b : Q) : Q := Qmax a b.
Definition Math_floor (a : Q) : Z := Qfloor a.

(** [THREE.MathUtils.clamp(value, min, max)] is
    [Math.max(min, Math.min(max, value))]. *)
Definition clamp (value lo hi : Q) : Q := Math_max lo (Math_min hi value).

(** [THREE.MathUtils.lerp(x, y, t)] is [(1 - t) * x + t * y]. *)
Definition lerp (a b t : Q) : Q := (1 - t) * a + t * b.

(** ** Data model *)

Record Vector3 := mkVector3 { vec_x : Q; vec_y : Q; vec_z : Q }.

(** The parameters of [new THREE.BoxGeometry(w, h, d)]. *)
Record BoxGeometry := mkBoxGeometry { width : Q; height : Q; depth : Q }.

Record Mesh := mkMesh {
  object_id : Z;
  position : Vector3;
  scale : Vector3;
  rotation_y : Q;
  geometry : BoxGeometry;
  emissiveIntensity : Q
}.

(** [new THREE.Mesh(geo, mat)]: position at the origin, unit scale, no
    rotation.  [oid] is the identity of the new JavaScript object (THREE
    numbers every [Object3D] from a global counter, its [id]). *)
Definition newMesh (oid : Z) (geo : BoxGeometry) (emissive : Q) : Mesh :=
  {| object_id := oid;
     position := mkVector3 0 0 0;
     scale := mkVector3 1 1 1;
     rotation_y := 0;
     geometry := geo;
     emissiveIntensity := emissive |}.

Definition set_position (p : Vector3) (m : Mesh) : Mesh :=
  {| object_id := object_id m;
     position := p; scale := scale m; rotation_y := rotation_y m;
     geometry := geometry m; emissiveIntensity := emissiveIntensity m |}.

Definition set_rotation_y (r : Q) (m : Mesh) : Mesh :=
  {| object_id := object_id m;
     position := position m; scale := scale m; rotation_y := r;
     geometry := geometry m; emissiveIntensity := emissiveIntensity m |}.

Definition set_emissiveIntensity (e : Q) (m : Mesh) : Mesh :=
  {| object_id := object_id m;
     position := position m; scale := scale m; rotation_y := rotation_y m;
     geometry := geometry m; emissiveIntensity := e |}.

Record Obstacle := mkObstacle {
  mesh : Mesh;
  o_laneIndex : Z;
  falling : bool;
  vy : Q;
  landed : bool
}.

Record Box3 := mkBox3 { box_min : Vector3; box_max : Vector3 }.

Record GameState := mkGameState {
  running : bool;
  paused : bool;
  gameOver : bool;
  lastTime : Q;
  laneIndex : Z;
  laneStartX : Q;
  laneTargetX : Q;
  laneT : Q;
  laneDuration : Q;
  speed : Q;
  difficulty : Q;
  spawnTimer : Q;
  spawnInterval : Q;
  score : Q;
  topScore : Q;
  obstacles : list Obstacle;
  blocksSpawned : Z
}.

(** Everything the closure mutates besides [gameRef.current]: the player
    mesh position, the writes to [localStorage] under [STORAGE_KEY] (the
    integer whose decimal string is stored, newest first), the React
    state shown by the HUD, and the counter from which the next object
    gets its identity (only obstacle meshes are counted here: the order
    of allocation is kept, the numbers are not the library's). *)
Record World := mkWorld {
  game : GameState;
  player : Vector3;
  storage : list Z;
  ui_score : Z;
  ui_topScore : Z;
  ui_isPaused : bool;
  ui_showOverlay : bool;
  ui_laneColorIndex : Z;
  nextObjectId : Z
}.

Definition set_game (g : GameState) (w : World) : World :=
  {| game := g; player := player w; storage := storage w;
     ui_score := ui_score w; ui_topScore := ui_topScore w;
     ui_isPaused := ui_isPaused w; ui_showOverlay := ui_showOverlay w;
     ui_laneColorIndex := ui_laneColorIndex w;
     nextObjectId := nextObjectId w |}.

Definition set_player_x (px : Q) (w : World) : World :=
  {| game := game w;
     player := mkVector3 px (vec_y (player w)) (vec_z (player w));
     storage := storage w;
     ui_score := ui_score w; ui_topScore := ui_topScore w;
     ui_isPaused := ui_isPaused w; ui_showOverlay := ui_showOverlay w;
     ui_laneColorIndex := ui_laneColorIndex w;
     nextObjectId := nextObjectId w |}.

Definition LANES : list Q := [-3; 0; 3].
Definition LANE_COLORS_length : Z := 5.

(** [LANES[i]]; every use below is guarded so that [0 <= i <= 2]. *)
Definition LANES_at (i : Z) : Q := nth (Z.to_nat i) LANES 0.

(** The six [Math.random()] results one call of [spawnObstacle] consumes,
    in the order the source draws them. *)
Record SpawnDraws := mkSpawnDraws {
  r_lane : Q; r_w : Q; r_h : Q; r_d : Q; r_y : Q; r_z : Q
}.

(** The state assigned to [gameRef.current] when the effect runs.
    [storedTop] is the number read back from [localStorage], 0 when the
    key is absent.  The model takes it to be an integer, as every value
    the game itself writes there is (a floor); a value put into the
    store by other means (a fraction, text that is no number) is read
    and shown as it is by the source and is outside the model. *)
Definition initialGame (storedTop : Z) : GameState :=
  {| running := false; paused := false; gameOver := false;
     lastTime := 0;
     laneIndex := 1; laneStartX := 0; laneTargetX := 0; laneT := 0;
     laneDuration := 0.1;
     speed := 6; difficulty := 1; spawnTimer := 0; spawnInterval := 1.2;
     score := 0; topScore := inject_Z storedTop;
     obstacles := []; blocksSpawned := 0 |}.

Definition initialWorld (storedTop : Z) : World :=
  {| game := initialGame storedTop;
     player := mkVector3 0 0.5 2;
     storage := [];
     ui_score := 0; ui_topScore := storedTop;
     ui_isPaused := false; ui_showOverlay := true;
     ui_laneColorIndex := 0;
     nextObjectId := 0 |}.

(** ** Lane model: [tryMoveLane] *)

Definition tryMoveLane (delta : Z) (w : World) : World :=
  let g := game w in
  if gameOver g then w else
  let newIndex := (laneIndex g + delta)%Z in
  if ((newIndex <? 0) || (newIndex >? 2))%Z then w else
  set_game
    {| running := running g; paused := paused g; gameOver := gameOver g;
       lastTime := lastTime g;
       laneIndex := newIndex;
       laneStartX := vec_x (player w);
       laneTargetX := LANES_at newIndex;
       laneT := 0;
       laneDuration := laneDuration g;
       speed := speed g; difficulty := difficulty g;
       spawnTimer := spawnTimer g; spawnInterval := spawnInterval g;
       score := score g; topScore := topScore g;
       obstacles := obstacles g; blocksSpawned := blocksSpawned g |}
    w.

(** ** Spawner: [spawnObstacle] *)

(** [x | 0] on an integer [x]: ToInt32, the value modulo [2^32] read as
    a signed 32-bit integer. *)
Definition ToInt32 (n : Z) : Z := ((n + 2 ^ 31) mod 2 ^ 32 - 2 ^ 31)%Z.

(** The [%] of JavaScript takes the sign of the dividend: [Z.rem].  For
    an index that is not negative [LANE_COLORS[index % 5]] is an entry
    of the table; for a negative one it is [undefined], on which the
    source goes on to read [.color]. *)
Definition updateLaneColors (index : Z) (w : World) : World :=
  {| game := game w; player := player w; storage := storage w;
     ui_score := ui_score w; ui_topScore := ui_topScore w;
     ui_isPaused := ui_isPaused w; ui_showOverlay := ui_showOverlay w;
     ui_laneColorIndex := Z.rem index LANE_COLORS_length;
     nextObjectId := nextObjectId w |}.

Definition spawnedObstacle (oid : Z) (rnd : SpawnDraws) (g : GameState)
  : Obstacle :=
  let laneIndex := Math_floor (r_lane rnd * 3) in
  let px := LANES_at laneIndex in
  let difficultyFactor := Math_min 2 (0.8 + difficulty g * 0.1) in
  let w := 0.8 + r_w rnd * 1.5 * difficultyFactor in
  let h := 0.8 + r_h rnd * 1.2 * difficultyFactor in
  let d := 0.8 + r_d rnd * 1.5 * difficultyFactor in
  let geo := mkBoxGeometry w h d in
  let m := set_position
             (mkVector3 px (8 + r_y rnd * 3) (-40 - r_z rnd * 20))
             (newMesh oid geo 0.9) in
  {| mesh := m; o_laneIndex := laneIndex;
     falling := true; vy := 0; landed := false |}.

Definition allocateObject (w : World) : World :=
  {| game := game w; player := player w; storage := storage w;
     ui_score := ui_score w; ui_topScore := ui_topScore w;
     ui_isPaused := ui_isPaused w; ui_showOverlay := ui_showOverlay w;
     ui_laneColorIndex := ui_laneColorIndex w;
     nextObjectId := (nextObjectId w + 1)%Z |}.

Definition spawnObstacle (rnd : SpawnDraws) (w : World) : World :=
  let g := game w in
  let spawned := (blocksSpawned g + 1)%Z in
  let w1 :=
    set_game
      {| running := running g; paused := paused g; gameOver := gameOver g;
         lastTime := lastTime g;
         laneIndex := laneIndex g; laneStartX := laneStartX g;
         laneTargetX := laneTargetX g; laneT := laneT g;
         laneDuration := laneDuration g;
         speed := speed g; difficulty := difficulty g;
         spawnTimer := spawnTimer g; spawnInterval := spawnInterval g;
         score := score g; topScore := topScore g;
         obstacles := obstacles g ++ [spawnedObstacle (nextObjectId w) rnd g];
         blocksSpawned := spawned |}
      (allocateObject w) in
  if (Z.rem spawned 10 =? 0)%Z
  then updateLaneColors
         (Z.rem (ToInt32 (spawned / 10)) LANE_COLORS_length) w1
  else w1.

(** ** Run state machine *)

Definition resetWorld (w : World) : World :=
  let g := game w in
  updateLaneColors 0
    {| game :=
         {| running := running g; paused := paused g; gameOver := gameOver g;
            lastTime := lastTime g;
            laneIndex := 1; laneStartX := 0; laneTargetX := 0; laneT := 0;
            laneDuration := laneDuration g;
            speed := 6; difficulty := 1;
            spawnTimer := 0; spawnInterval := 1.2;
            score := 0; topScore := topScore g;
            obstacles := []; blocksSpawned := 0 |};
       player := mkVector3 0 0.5 2;
       storage := storage w;
       ui_score := ui_score w; ui_topScore := ui_topScore w;
       ui_isPaused := ui_isPaused w; ui_showOverlay := ui_showOverlay w;
       ui_laneColorIndex := ui_laneColorIndex w;
       nextObjectId := nextObjectId w |}.

(** [now] is the value of [performance.now()] at the call. *)
Definition startGame (now : Q) (w : World) : World :=
  let w1 := resetWorld w in
  let g := game w1 in
  {| game :=
       {| running := true; paused := false; gameOver := false;
          lastTime := now;
          laneIndex := laneIndex g; laneStartX := laneStartX g;
          laneTargetX := laneTargetX g; laneT := laneT g;
          laneDuration := laneDuration g;
          speed := speed g; difficulty := difficulty g;
          spawnTimer := spawnTimer g; spawnInterval := spawnInterval g;
          score := score g; topScore := topScore g;
          obstacles := obstacles g; blocksSpawned := blocksSpawned g |};
     player := player w1;
     storage := storage w1;
     ui_score := 0; ui_topScore := ui_topScore w1;
     ui_isPaused := false; ui_showOverlay := false;
     ui_laneColorIndex := ui_laneColorIndex w1;
     nextObjectId := nextObjectId w1 |}.

Definition endGame (w : World) : World :=
  let g := game w in
  let record := score g >? topScore g in
  let topScore' := if record then score g else topScore g in
  {| game :=
       {| running := false; paused := paused g; gameOver := true;
          lastTime := lastTime g;
          laneIndex := laneIndex g; laneStartX := laneStartX g;
          laneTargetX := laneTargetX g; laneT := laneT g;
          laneDuration := laneDuration g;
          speed := speed g; difficulty := difficulty g;
          spawnTimer := spawnTimer g; spawnInterval := spawnInterval g;
          score := score g; topScore := topScore';
          obstacles := obstacles g; blocksSpawned := blocksSpawned g |};
     player := player w;
     storage :=
       if record then Math_floor topScore' :: storage w else storage w;
     ui_score := ui_score w;
     ui_topScore :=
       if record then Math_floor topScore' else ui_topScore w;
     ui_isPaused := false; ui_showOverlay := true;
     ui_laneColorIndex := ui_laneColorIndex w;
     nextObjectId := nextObjectId w |}.

Definition togglePause (now : Q) (w : World) : World :=
  let g := game w in
  if negb (running g) || gameOver g then w else
  let paused' := negb (paused g) in
  {| game :=
       {| running := running g; paused := paused'; gameOver := gameOver g;
          lastTime := if negb paused' then now else lastTime g;
          laneIndex := laneIndex g; laneStartX := laneStartX g;
          laneTargetX := laneTargetX g; laneT := laneT g;
          laneDuration := laneDuration g;
          speed := speed g; difficulty := difficulty g;
          spawnTimer := spawnTimer g; spawnInterval := spawnInterval g;
          score := score g; topScore := topScore g;
          obstacles := obstacles g; blocksSpawned := blocksSpawned g |};
     player := player w;
     storage := storage w;
     ui_score := ui_score w; ui_topScore := ui_topScore w;
     ui_isPaused := paused'; ui_showOverlay := ui_showOverlay w;
     ui_laneColorIndex := ui_laneColorIndex w;
     nextObjectId := nextObjectId w |}.

Definition handleStartOrRestart (now : Q) (w : World) : World :=
  let g := game w in
  if negb (running g) || gameOver g then startGame now w else w.

(** [onKeyDown], on the [code] of the keyboard event. *)
Definition onKeyDown (now : Q) (code : string) (w : World) : World :=
  let w1 :=
    if negb (String.eqb code "KeyP") && negb (String.eqb code "Escape")
    then handleStartOrRestart now w else w in
  let w2 :=
    if String.eqb code "ArrowLeft" || String.eqb code "KeyA"
    then tryMoveLane (-1) w1 else w1 in
  let w3 :=
    if String.eqb code "ArrowRight" || String.eqb code "KeyD"
    then tryMoveLane 1 w2 else w2 in
  if String.eqb code "Escape" || String.eqb code "KeyP"
  then togglePause now w3 else w3.

(** ** Collision test: [intersectsCube] on the box of the mesh *)

Definition intersectsBox (box : Box3) (px py pz radius : Q) : bool :=
  let cx := clamp px (vec_x (box_min box)) (vec_x (box_max box)) in
  let cy := clamp py (vec_y (box_min box)) (vec_y (box_max box)) in
  let cz := clamp pz (vec_z (box_min box)) (vec_z (box_max box)) in
  let dx := cx - px in
  let dy := cy - py in
  let dz := cz - pz in
  dx * dx + dy * dy + dz * dz <? radius * radius.

(** What [new THREE.Box3().setFromObject(mesh)] gives for a mesh that is
    not rotated: the box geometry is centred on the mesh position and
    scaled per axis. *)
Definition Box3_ofUnrotated (m : Mesh) : Box3 :=
  let hx := vec_x (scale m) * width (geometry m) / 2 in
  let hy := vec_y (scale m) * height (geometry m) / 2 in
  let hz := vec_z (scale m) * depth (geometry m) / 2 in
  let p := position m in
  {| box_min := mkVector3 (vec_x p - hx) (vec_y p - hy) (vec_z p - hz);
     box_max := mkVector3 (vec_x p + hx) (vec_y p + hy) (vec_z p + hz) |}.

Definition translateVec (v p : Vector3) : Vector3 :=
  mkVector3 (vec_x p + vec_x v) (vec_y p + vec_y v) (vec_z p + vec_z v).

Definition translateBox (v : Vector3) (b : Box3) : Box3 :=
  {| box_min := translateVec v (box_min b);
     box_max := translateVec v (box_max b) |}.

(** ** Vocabulary of the properties *)

(** The run phase the three flags of [GameState] encode. *)
Inductive Phase := Idle | Running | Paused | GameOver.

Definition phase (g : GameState) : Phase :=
  if gameOver g then GameOver
  else if negb (running g) then Idle
  else if paused g then Paused
  else Running.

(** The easing curve of the lane change, [f(t) = t^2 (3 - 2t)]. *)
Definition smoothstep (t : Q) : Q := t * t * (3 - 2 * t).

(** The point of the box the collision test measures from. *)
Definition closestPoint (box : Box3) (p : Vector3) : Vector3 :=
  mkVector3
    (clamp (vec_x p) (vec_x (box_min box)) (vec_x (box_max box)))
    (clamp (vec_y p) (vec_y (box_min box)) (vec_y (box_max box)))
    (clamp (vec_z p) (vec_z (box_min box)) (vec_z (box_max box))).

Definition dist2 (a b : Vector3) : Q :=
  (vec_x a - vec_x b) * (vec_x a - vec_x b)
  + (vec_y a - vec_y b) * (vec_y a - vec_y b)
  + (vec_z a - vec_z b) * (vec_z a - vec_z b).

Definition inBox (box : Box3) (q : Vector3) : Prop :=
  vec_x (box_min box) <= vec_x q <= vec_x (box_max box) /\
  vec_y (box_min box) <= vec_y q <= vec_y (box_max box) /\
  vec_z (box_min box) <= vec_z q <= vec_z (box_max box).

Definition wellFormedBox (box : Box3) : Prop :=
  vec_x (box_min box) <= vec_x (box_max box) /\
  vec_y (box_min box) <= vec_y (box_max box) /\
  vec_z (box_min box) <= vec_z (box_max box).

(** A later state of the same obstacle: the same object, and once landed
    it stays landed, at the same height. *)
Definition later (o o' : Obstacle) : Prop :=
  object_id (mesh o') = object_id (mesh o) /\
  (landed o = true ->
   landed o' = true /\ falling o' = falling o /\
   vec_y (position (mesh o')) = vec_y (position (mesh o))).

(** How the obstacle array of a later moment relates to an earlier one,
    [n] being the object counter of the earlier moment: obstacles keep
    their order, each is either destroyed or still there in a [later]
    state, and the objects created since come at the end. *)
Inductive survives (n : Z) : list Obstacle -> list Obstacle -> Prop :=
| survives_new news :
    Forall (fun o => (n <= object_id (mesh o))%Z) news ->
    survives n [] news
| survives_keep o o' os os' :
    later o o' -> survives n os os' -> survives n (o :: os) (o' :: os')
| survives_destroyed o os os' :
    survives n os os' -> survives n (o :: os) os'.

(** The obstacle objects of the array are distinct and were all created
    before the counter reached its present value. *)
Definition distinctObjects (w : World) : Prop :=
  NoDup (map (fun o => object_id (mesh o)) (obstacles (game w))) /\
  Forall (fun o => (object_id (mesh o) < nextObjectId w)%Z)
    (obstacles (game w)).

(** Frames [1..n] of a run at a steady 16 ms per frame that started at
    [now]; [rnd k] are the draws available to frame [k]. *)
Definition steadyFrames (now : Q) (rnd : nat -> SpawnDraws) (n : nat)
  : list (Q * SpawnDraws) :=
  map (fun k => (now + 16 * inject_Z (Z.of_nat k), rnd k)) (seq 1 n).

(** ** Sample states and inputs *)

(** A world like [w] with the given score and top score. *)
Definition withScore (s top : Q) (w : World) : World :=
  let g := game w in
  set_game
    {| running := running g; paused := paused g; gameOver := gameOver g;
       lastTime := lastTime g;
       laneIndex := laneIndex g; laneStartX := laneStartX g;
       laneTargetX := laneTargetX g; laneT := laneT g;
       laneDuration := laneDuration g;
       speed := speed g; difficulty := difficulty g;
       spawnTimer := spawnTimer g; spawnInterval := spawnInterval g;
       score := s; topScore := top;
       obstacles := obstacles g; blocksSpawned := blocksSpawned g |}
    w.

(** A world like [w] with the given obstacle array. *)
Definition withObstacles (os : list Obstacle) (w : World) : World :=
  let g := game w in
  {| game :=
       {| running := running g; paused := paused g; gameOver := gameOver g;
          lastTime := lastTime g;
          laneIndex := laneIndex g; laneStartX := laneStartX g;
          laneTargetX := laneTargetX g; laneT := laneT g;
          laneDuration := laneDuration g;
          speed := speed g; difficulty := difficulty g;
          spawnTimer := spawnTimer g; spawnInterval := spawnInterval g;
          score := score g; topScore := topScore g;
          obstacles := os; blocksSpawned := blocksSpawned g |};
     player := player w; storage := storage w;
     ui_score := ui_score w; ui_topScore := ui_topScore w;
     ui_isPaused := ui_isPaused w; ui_showOverlay := ui_showOverlay w;
     ui_laneColorIndex := ui_laneColorIndex w;
     nextObjectId := (nextObjectId w + Z.of_nat (List.length os))%Z |}.

(** A run just started at time 0, with no stored top score. *)
Definition freshRun : World := startGame 0 (initialWorld 0).

(** The same run, paused with the P key. *)
Definition pausedRun : World := onKeyDown 0 "KeyP" freshRun.

(** Draws that put the obstacle in the middle lane, at the lowest drop
    height and the nearest depth, with every size at half its range. *)
Definition sampleDraws : SpawnDraws :=
  {| r_lane := 0.5; r_w := 0.5; r_h := 0.5; r_d := 0.5; r_y := 0; r_z := 0 |}.

(** Frames [1..n], [ms] milliseconds apart, from time 0. *)
Definition framesEvery (ms : Q) (n : nat) : list (Q * SpawnDraws) :=
  map (fun k => (ms * inject_Z (Z.of_nat k), sampleDraws)) (seq 1 n).

(** A unit cube that has landed in the middle lane, at depth [pz]. *)
Definition landedCube (oid : Z) (pz : Q) : Obstacle :=
  {| mesh := set_position (mkVector3 0 1 pz)
               (newMesh oid (mkBoxGeometry 1 1 1) 1.5);
     o_laneIndex := 1; falling := false; vy := 0; landed := true |}.

(** A run that has just spawned its first obstacle, from [sampleDraws]. *)
Definition justSpawned : World :=
  withObstacles [spawnedObstacle 0 sampleDraws (game freshRun)] freshRun.

(** A mesh that never wobbles: the sine replaced by the zero function,
    for which the box of an obstacle is that of [Box3_ofUnrotated]. *)
Definition noWobble : Q -> Q := fun _ => 0.

(** ** The spawn clock in binary64

    The "score / difficulty" and "spawn obstacles" blocks of [loop] once
    more, on IEEE doubles with the operations JavaScript uses, to run the
    timer with its rounding. *)
Module Binary64.

Set Warnings "-inexact-float".

Record Clock := mkClock {
  difficulty : float;
  spawnInterval : float;
  spawnTimer : float;
  score : float;
  blocksSpawned : Z
}.

Definition Math_max (a b : float) : float :=
  if PrimFloat.ltb a b then b else a.

Definition tick (dt : float) (c : Clock) : Clock :=
  let score' := (score c + dt * (8 + difficulty c * 2))%float in
  let difficulty' := (difficulty c + dt * 0.03)%float in
  let spawnInterval' := Math_max 0.5 (1.2 - difficulty' * 0.05)%float in
  let spawnTimer' := (spawnTimer c + dt)%float in
  if PrimFloat.ltb spawnInterval' spawnTimer'
  then mkClock difficulty' spawnInterval' 0 score' (blocksSpawned c + 1)
  else mkClock difficulty' spawnInterval' spawnTimer' score' (blocksSpawned c).

(** The clock [resetWorld] leaves. *)
Definition fresh : Clock := mkClock 1 1.2 0 0 0.

End Binary64.

(** ** Touch and pointer input *)

(** The closure variables [sx], [sy], [st] of the touch handlers. *)
Record TouchState := mkTouchState { sx : Q; sy : Q; st : Q }.

Definition initialTouch : TouchState := mkTouchState 0 0 0.

(** [onTouchStart], on the client coordinates of the first changed
    touch; [st_now] and [now] are the two readings of
    [performance.now()], the handler's own and that of [startGame]. *)
Definition onTouchStart (st_now now clientX clientY : Q) (ts : TouchState)
    (w : World) : TouchState * World :=
  (mkTouchState clientX clientY st_now, handleStartOrRestart now w).

(** [onTouchEnd]: a mostly horizontal movement of more than 40 pixels
    is a lane change; the vertical branch of the source does nothing. *)
Definition onTouchEnd (clientX clientY : Q) (ts : TouchState) (w : World)
  : World :=
  let dx := clientX - sx ts in
  let dy := clientY - sy ts in
  let absX := Qabs dx in
  let absY := Qabs dy in
  let threshold := 40 in
  if (absX >? absY) && (absX >? threshold) then
    if dx <? 0 then tryMoveLane (-1) w else tryMoveLane 1 w
  else w.

Definition onClick (now : Q) (w : World) : World :=
  let g := game w in
  if paused g && running g && negb (gameOver g) then togglePause now w
  else w.

(** What can happen to the page: an animation frame or an input event. *)
Inductive Event :=
| Frame (time : Q) (rnd : SpawnDraws)
| KeyDown (now : Q) (code : string)
| TouchStart (st_now now clientX clientY : Q)
| TouchEnd (clientX clientY : Q)
| Click (now : Q).

(** ** Camera and scenery *)

Record Camera := mkCamera { fov : Q; cam_x : Q; cam_y : Q; cam_z : Q }.

(** "camera": the field of view and the position ease towards their
    targets, the depth follows the player. *)
Definition cameraStep (dt speed : Q) (p : Vector3) (c : Camera) : Camera :=
  let speedFactor := speed / 30 in
  let targetFov := 60 + speedFactor * 7 in
  {| fov := fov c + (targetFov - fov c) * 5 * dt;
     cam_x := cam_x c + (vec_x p * 0.5 - cam_x c) * 6 * dt;
     cam_y := cam_y c + (3 - cam_y c) * 4 * dt;
     cam_z := vec_z p + 7 |}.

(** The depth of the ground plane and of the lane lines. *)
Record Scenery := mkScenery { ground_z : Q; laneLines_z : list Q }.

Definition initialScenery : Scenery := mkScenery (-180) [-115; -115; -115].

(** "world movement": everything scrolls by [forward] and wraps. *)
Definition worldMovement (forward : Q) (s : Scenery) : Scenery :=
  {| ground_z :=
       let z := ground_z s + forward in
       if z >? 0 then -180 else z;
     laneLines_z :=
       map (fun z => let z' := z + forward in
                     if z' >? 10 then -115 else z')
         (laneLines_z s) |}.

(** ** Speed lines and rain *)

Record SpeedLine := mkSpeedLine {
  sl_x : Q; sl_z : Q; sl_length : Q; sl_color : Z; sl_opacity : Q;
  life : Q; maxLife : Q
}.

Record RainLine := mkRainLine {
  rl_x : Q; rl_z : Q; rl_length : Q; rl_opacity : Q; rl_speed : Q
}.

(** The [Math.random()] results of one [spawnSpeedLine] call and of one
    [spawnRainLine] call, in the order drawn. *)
Record SpeedLineDraws := mkSpeedLineDraws {
  d_len : Q; d_color : Q; d_sx : Q; d_sz : Q; d_life : Q
}.

Record RainDraws := mkRainDraws {
  d_rlen : Q; d_rx : Q; d_rz : Q; d_speed : Q
}.

Definition speedLineColors : list Z :=
  [0x22ff88; 0xff66cc; 0xaa66ff; 0x44ccff; 0xffee66]%Z.

Definition spawnSpeedLine (intensity : Q) (rnd : SpeedLineDraws)
    (p : Vector3) : SpeedLine :=
  {| sl_length := 1.2 + d_len rnd * 2.0 * intensity;
     sl_color :=
       nth (Z.to_nat (Math_floor (d_color rnd * 5))) speedLineColors 0%Z;
     sl_opacity := 0.9;
     sl_x := vec_x p + (d_sx rnd - 0.5) * 3;
     sl_z := vec_z p - 2 - d_sz rnd * 4;
     life := 0;
     maxLife := 0.25 + d_life rnd * 0.2 |}.

Definition spawnRainLine (rnd : RainDraws) (p : Vector3) : RainLine :=
  {| rl_length := 2.0 + d_rlen rnd * 1.2;
     rl_opacity := 0.42;
     rl_x := (d_rx rnd - 0.5) * 20;
     rl_z := vec_z p - 50 - d_rz rnd * 70;
     rl_speed := 22 + d_speed rnd * 10 |}.

(** The rain loop, last line first; a line past the player by more than
    18 is removed. *)
Fixpoint updateRainLines (dt pz : Q) (ls : list RainLine) : list RainLine :=
  match ls with
  | [] => []
  | rl :: rest =>
      let rest' := updateRainLines dt pz rest in
      let rl' :=
        {| rl_x := rl_x rl; rl_z := rl_z rl + rl_speed rl * dt;
           rl_length := rl_length rl; rl_opacity := rl_opacity rl * 0.99;
           rl_speed := rl_speed rl |} in
      if rl_z rl' >? pz + 18 then rest' else rl' :: rest'
  end.

(** The speed line loop, last line first; a line older than its
    [maxLife] is removed. *)
Fixpoint updateSpeedLines (dt forward : Q) (ls : list SpeedLine)
  : list SpeedLine :=
  match ls with
  | [] => []
  | sl :: rest =>
      let rest' := updateSpeedLines dt forward rest in
      let life' := life sl + dt in
      let tNorm := life' / maxLife sl in
      let sl' :=
        {| sl_x := sl_x sl; sl_z := sl_z sl + forward * 1.4;
           sl_length := sl_length sl; sl_color := sl_color sl;
           sl_opacity := Math_max 0 (0.9 * (1 - tNorm));
           life := life'; maxLife := maxLife sl |} in
      if life' >? maxLife sl then rest' else sl' :: rest'
  end.

Record Ambient := mkAmbient {
  speedLines : list SpeedLine;
  rainLines : list RainLine
}.

(** The draws of the ambient part of one frame: the three chances and
    the draws of the line each would spawn. *)
Record AmbientDraws := mkAmbientDraws {
  a_rain : Q; a_rainLine : RainDraws;
  a_fast : Q; a_fastLine : SpeedLineDraws;
  a_slow : Q; a_slowLine : SpeedLineDraws
}.

(** "rain" and "speed lines" of a simulated frame. *)
Definition ambientFrame (dt speed forward : Q) (p : Vector3)
    (rnd : AmbientDraws) (a : Ambient) : Ambient :=
  let rain1 :=
    if a_rain rnd <? dt * (10 + speed * 0.8)
    then rainLines a ++ [spawnRainLine (a_rainLine rnd) p]
    else rainLines a in
  let rain2 := updateRainLines dt (vec_z p) rain1 in
  let lines1 :=
    if (speed >? 18) && (a_fast rnd <? dt * 30)
    then speedLines a ++ [spawnSpeedLine 1.1 (a_fastLine rnd) p]
    else speedLines a in
  let lines2 :=
    if a_slow rnd <? dt * 10
    then lines1 ++ [spawnSpeedLine 0.7 (a_slowLine rnd) p]
    else lines1 in
  {| speedLines := updateSpeedLines dt forward lines2; rainLines := rain2 |}.

(** A run of the speed line loop alone, one [(dt, forward)] per frame. *)
Fixpoint fadeSpeedLines (steps : list (Q * Q)) (ls : list SpeedLine)
  : list SpeedLine :=
  match steps with
  | [] => ls
  | (dt, forward) :: steps' =>
      fadeSpeedLines steps' (updateSpeedLines dt forward ls)
  end.

Definition inUnit (r : Q) : Prop := 0 <= r < 1.

Definition drawsInUnit (rnd : SpawnDraws) : Prop :=
  inUnit (r_lane rnd) /\ inUnit (r_w rnd) /\ inUnit (r_h rnd) /\
  inUnit (r_d rnd) /\ inUnit (r_y rnd) /\ inUnit (r_z rnd).

(** The frame clock does not run backwards. *)
Definition clockForward (e : Event) (w : World) : Prop :=
  match e with
  | Frame time _ => lastTime (game w) <= time
  | _ => True
  end.

(** The random draws of a frame are in [[0, 1)]. *)
Definition unitDraws (e : Event) (w : World) : Prop :=
  match e with
  | Frame _ rnd => drawsInUnit rnd
  | _ => True
  end.

(** ** Vocabulary of the invariants *)

(** The flags encode one phase: a paused game is running, a finished
    one is not. *)
Definition flagsConsistent (g : GameState) : Prop :=
  (paused g = true -> running g = true) /\
  (gameOver g = true -> running g = false).

Definition laneConsistent (g : GameState) : Prop :=
  (0 <= laneIndex g <= 2)%Z /\
  laneTargetX g = LANES_at (laneIndex g) /\
  laneDuration g = 0.1.

(** What the HUD state shows of the game. *)
Definition hudConsistent (w : World) : Prop :=
  ui_score w = Math_floor (score (game w)) /\
  ui_topScore w = Math_floor (topScore (game w)) /\
  ui_isPaused w = paused (game w) /\
  ui_showOverlay w = negb (running (game w)).

(** The colour index follows the spawn count as long as the number of
    tens fits a signed 32-bit integer, which [| 0] wraps to. *)
Definition colourFollowsSpawns (w : World) : Prop :=
  (0 <= blocksSpawned (game w))%Z /\
  ((blocksSpawned (game w) < 10 * 2 ^ 31)%Z ->
   ui_laneColorIndex w
   = ((blocksSpawned (game w) / 10) mod LANE_COLORS_length)%Z).

(** The store only ever receives floors of top scores, each at least
    the one before and at least the value read at start-up. *)
Definition storeConsistent (storedTop : Z) (w : World) : Prop :=
  inject_Z storedTop <= topScore (game w) /\
  Forall (fun v => (storedTop <= v)%Z /\ inject_Z v <= topScore (game w))
    (storage w) /\
  StronglySorted Z.ge (storage w).

(** An obstacle of the array: in its lane, of unit scale, not past the
    removal line, and either falling or at rest on height 1. *)
Definition obstacleOK (o : Obstacle) : Prop :=
  scale (mesh o) = mkVector3 1 1 1 /\
  (0 <= o_laneIndex o <= 2)%Z /\
  vec_x (position (mesh o)) = LANES_at (o_laneIndex o) /\
  vec_z (position (mesh o)) <= 10 /\
  falling o = negb (landed o) /\
  (landed o = true ->
   vec_y (position (mesh o)) = 0.5 + 1 / 2 /\ vy o = 0).

(** Where the lane change puts the player: the eased interpolation
    between start and target at the elapsed fraction of the duration. *)
Definition lanePosition (g : GameState) : Q :=
  lerp (laneStartX g) (laneTargetX g)
    (smoothstep (Math_min 1 (laneT g / laneDuration g))).

(** The player is where the lane change puts it. *)
Definition onTrack (w : World) : Prop :=
  laneConsistent (game w) /\ vec_x (player w) == lanePosition (game w).

(** [x] lies between [a] and [b], whichever is the greater. *)
Definition between (a x b : Q) : Prop := a <= x <= b \/ b <= x <= a.

(** The draws the ambient part of a frame may use are in [[0, 1)]. *)
Definition ambientDrawsInUnit (rnd : AmbientDraws) : Prop :=
  inUnit (d_rz (a_rainLine rnd)) /\ inUnit (d_speed (a_rainLine rnd)) /\
  inUnit (d_life (a_fastLine rnd)) /\ inUnit (d_life (a_slowLine rnd)).

(** The simulated time of a run of the speed line loop. *)
Definition elapsedOf (steps : list (Q * Q)) : Q :=
  fold_right (fun s acc => fst s + acc) 0 steps.

(** The lane a key press that starts a run leaves the player in. *)
Definition laneAfterStart (code : string) : Z :=
  if String.eqb code "ArrowLeft" || String.eqb code "KeyA" then 0
  else if String.eqb code "ArrowRight" || String.eqb code "KeyD" then 2
  else 1.

(** The ranges the difficulty curve keeps its quantities in. *)
Definition curveOK (g : GameState) : Prop :=
  1 <= difficulty g /\ 0 <= score g /\
  0.5 <= spawnInterval g <= 1.2 /\ 6 <= speed g /\ 0 <= spawnTimer g.

(** The upper ends are closed: a draw just below 1 reaches them once the
    product is rounded to a double. *)
Definition speedLineOK (sl : SpeedLine) : Prop :=
  0 <= life sl <= maxLife sl /\ 0.25 <= maxLife sl <= 0.45 /\
  0 <= sl_opacity sl <= 0.9.

Definition rainLineOK (pz : Q) (rl : RainLine) : Prop :=
  rl_z rl <= pz + 18 /\ 22 <= rl_speed rl <= 32 /\
  0 <= rl_opacity rl <= 0.42.

(** ** The numbers of the HUD

    The score and the top score are rendered as
    [n.toString().padStart(4, "0")].  Both are integers (the floor of
    the game's numbers); [Number_toString] is [Number.prototype.toString]
    on the integers below [2^53] in absolute value, which a double holds
    exactly and JavaScript prints as their decimal numeral.  From [2^53]
    on it prints the shortest digits that read back to the same double,
    which is not modelled. *)

Definition Number_toString (n : Z) : string :=
  match n with
  | Z0 => "0"%string
  | Zpos p => NilEmpty.string_of_uint (Pos.to_uint p)
  | Zneg p => String.append "-" (NilEmpty.string_of_uint (Pos.to_uint p))
  end.

(** [n] characters of [padString] repeated, starting with [rest]. *)
Fixpoint fillString (n : nat) (padString rest : string) : string :=
  match n with
  | O => EmptyString
  | S n' =>
      match rest with
      | String c rest' => String c (fillString n' padString rest')
      | EmptyString =>
          match padString with
          | String c pad' => String c (fillString n' padString pad')
          | EmptyString => EmptyString
          end
      end
  end.

(** [String.prototype.padStart]: a string that is long enough, or an
    empty filler, leaves the string as it is. *)
Definition padStart (targetLength : nat) (padString s : string) : string :=
  if ((targetLength <=? String.length s)%nat || String.eqb padString "")%bool
  then s
  else String.append
         (fillString (targetLength - String.length s) padString padString) s.

Definition hudNumber (n : Z) : string := padStart 4 "0" (Number_toString n).

(** Reading a string of decimal digits; [None] for the empty string and
    for anything with another character in it. *)
Definition readDecimal (s : string) : option Z :=
  option_map Z.of_uint (NilZero.uint_of_string s).

(** ** More sample inputs *)

(** A short session: a key starts the game, two frames pass, the player
    moves left, one more frame. *)
Definition sampleSession : list Event :=
  [KeyDown 0 "Space"; Frame 16 sampleDraws; Frame 32 sampleDraws;
   KeyDown 40 "ArrowLeft"; Frame 48 sampleDraws].

Definition sampleLineDraws : SpeedLineDraws :=
  {| d_len := 0.5; d_color := 0.5; d_sx := 0.5; d_sz := 0.5; d_life := 0.5 |}.

Definition sampleRainDraws : RainDraws :=
  {| d_rlen := 0.5; d_rx := 0.5; d_rz := 0.5; d_speed := 0.5 |}.

Definition sampleAmbientDraws : AmbientDraws :=
  {| a_rain := 0; a_rainLine := sampleRainDraws;
     a_fast := 0; a_fastLine := sampleLineDraws;
     a_slow := 0; a_slowLine := sampleLineDraws |}.

Definition emptyAmbient : Ambient := mkAmbient [] [].

Definition initialCamera : Camera := mkCamera 60 0 3 7.

(** ** The frame callback: [loop] *)

Section Frame.

(** The two library functions the frame calls on values the model
    cannot compute exactly: [Math.sin], and
    [new THREE.Box3().setFromObject(mesh)], the world-space bounding box
    of a (possibly rotated) mesh. *)
Variable Math_sin : Q -> Q.
Variable setFromObject : Mesh -> Box3.

Definition intersectsCube (m : Mesh) (px py pz radius : Q) : bool :=
  intersectsBox (setFromObject m) px py pz radius.

(** The clamped frame delta, in seconds. *)
Definition frameDt (time : Q) (g : GameState) : Q :=
  Math_min ((time - lastTime g) / 1000) 0.05.

Definition set_lastTime (time : Q) (w : World) : World :=
  let g := game w in
  set_game
    {| running := running g; paused := paused g; gameOver := gameOver g;
       lastTime := time;
       laneIndex := laneIndex g; laneStartX := laneStartX g;
       laneTargetX := laneTargetX g; laneT := laneT g;
       laneDuration := laneDuration g;
       speed := speed g; difficulty := difficulty g;
       spawnTimer := spawnTimer g; spawnInterval := spawnInterval g;
       score := score g; topScore := topScore g;
       obstacles := obstacles g; blocksSpawned := blocksSpawned g |}
    w.

(** "score / difficulty" *)
Definition scoreDifficulty (dt : Q) (w : World) : World :=
  let g := game w in
  let score' := score g + dt * (8 + difficulty g * 2) in
  let difficulty' := difficulty g + dt * 0.03 in
  {| game :=
       {| running := running g; paused := paused g; gameOver := gameOver g;
          lastTime := lastTime g;
          laneIndex := laneIndex g; laneStartX := laneStartX g;
          laneTargetX := laneTargetX g; laneT := laneT g;
          laneDuration := laneDuration g;
          speed := 6 + difficulty' * 4;
          difficulty := difficulty';
          spawnTimer := spawnTimer g;
          spawnInterval := Math_max 0.5 (1.2 - difficulty' * 0.05);
          score := score'; topScore := topScore g;
          obstacles := obstacles g; blocksSpawned := blocksSpawned g |};
     player := player w;
     storage := storage w;
     ui_score := Math_floor score'; ui_topScore := ui_topScore w;
     ui_isPaused := ui_isPaused w; ui_showOverlay := ui_showOverlay w;
     ui_laneColorIndex := ui_laneColorIndex w;
     nextObjectId := nextObjectId w |}.

Definition set_laneT (t : Q) (w : World) : World :=
  let g := game w in
  set_game
    {| running := running g; paused := paused g; gameOver := gameOver g;
       lastTime := lastTime g;
       laneIndex := laneIndex g; laneStartX := laneStartX g;
       laneTargetX := laneTargetX g; laneT := t;
       laneDuration := laneDuration g;
       speed := speed g; difficulty := difficulty g;
       spawnTimer := spawnTimer g; spawnInterval := spawnInterval g;
       score := score g; topScore := topScore g;
       obstacles := obstacles g; blocksSpawned := blocksSpawned g |}
    w.

(** "lane interpolation" *)
Definition laneInterpolation (dt : Q) (w : World) : World :=
  let g := game w in
  if laneT g <? laneDuration g then
    let laneT' := laneT g + dt in
    let tNorm := Math_min 1 (laneT' / laneDuration g) in
    let smooth := tNorm * tNorm * (3 - 2 * tNorm) in
    set_player_x (lerp (laneStartX g) (laneTargetX g) smooth)
      (set_laneT laneT' w)
  else set_player_x (laneTargetX g) w.

Definition set_spawnTimer (t : Q) (w : World) : World :=
  let g := game w in
  set_game
    {| running := running g; paused := paused g; gameOver := gameOver g;
       lastTime := lastTime g;
       laneIndex := laneIndex g; laneStartX := laneStartX g;
       laneTargetX := laneTargetX g; laneT := laneT g;
       laneDuration := laneDuration g;
       speed := speed g; difficulty := difficulty g;
       spawnTimer := t; spawnInterval := spawnInterval g;
       score := score g; topScore := topScore g;
       obstacles := obstacles g; blocksSpawned := blocksSpawned g |}
    w.

(** "spawn obstacles" *)
Definition spawnObstacles (dt : Q) (rnd : SpawnDraws) (w : World) : World :=
  let w1 := set_spawnTimer (spawnTimer (game w) + dt) w in
  if spawnTimer (game w1) >? spawnInterval (game w1)
  then spawnObstacle rnd (set_spawnTimer 0 w1)
  else w1.

(** The body of the obstacle loop up to the removal test, for the
    obstacle at index [i]. *)
Definition stepObstacle (time dt forward : Q) (i : nat) (o : Obstacle)
  : Obstacle :=
  let m := mesh o in
  let p := position m in
  if falling o && negb (landed o) then
    let vy' := vy o + -25 * dt in
    let y' := vec_y p + vy' * dt in
    let z' := vec_z p + forward * 0.3 in
    if y' <=? 0.5 + vec_y (scale m) / 2 then
      {| mesh :=
           set_emissiveIntensity 1.5
             (set_position
                (mkVector3 (vec_x p) (0.5 + vec_y (scale m) / 2) z') m);
         o_laneIndex := o_laneIndex o;
         falling := false; vy := 0; landed := true |}
    else
      {| mesh := set_position (mkVector3 (vec_x p) y' z') m;
         o_laneIndex := o_laneIndex o;
         falling := falling o; vy := vy'; landed := landed o |}
  else if landed o then
    {| mesh :=
         set_rotation_y
           (Math_sin (time * 0.004 + inject_Z (Z.of_nat i)) * 0.15)
           (set_position
              (mkVector3 (vec_x p) (vec_y p) (vec_z p + forward)) m);
       o_laneIndex := o_laneIndex o;
       falling := falling o; vy := vy o; landed := landed o |}
  else o.

(** The loop [for (let i = g.obstacles.length - 1; i >= 0; i--)] over
    the obstacles from index [i] on: the tail (higher indices) is
    visited first; [splice(i, 1)] drops the obstacle; a hit stops the
    scan ([break]) and leaves the lower indices as they were.  The
    boolean tells whether [endGame] was called. *)
Fixpoint updateObstacles (time dt forward : Q) (p : Vector3) (i : nat)
    (os : list Obstacle) : list Obstacle * bool :=
  match os with
  | [] => ([], false)
  | o :: rest =>
      let (rest', hit) := updateObstacles time dt forward p (S i) rest in
      if hit then (o :: rest', true)
      else
        let o' := stepObstacle time dt forward i o in
        if vec_z (position (mesh o')) >? 10 then (rest', false)
        else if intersectsCube (mesh o') (vec_x p) (vec_y p) (vec_z p) 0.7
        then (o' :: rest', true)
        else (o' :: rest', false)
  end.

Definition set_obstacles (os : list Obstacle) (w : World) : World :=
  let g := game w in
  set_game
    {| running := running g; paused := paused g; gameOver := gameOver g;
       lastTime := lastTime g;
       laneIndex := laneIndex g; laneStartX := laneStartX g;
       laneTargetX := laneTargetX g; laneT := laneT g;
       laneDuration := laneDuration g;
       speed := speed g; difficulty := difficulty g;
       spawnTimer := spawnTimer g; spawnInterval := spawnInterval g;
       score := score g; topScore := topScore g;
       obstacles := os; blocksSpawned := blocksSpawned g |}
    w.

(** "obstacles: falling then sliding".  [endGame] touches neither the
    obstacle array nor the player, and the [break] follows it at once,
    so calling it after the scan is the same. *)
Definition obstaclesPass (time dt : Q) (w : World) : World :=
  let forward := speed (game w) * dt in
  let (os, hit) :=
    updateObstacles time dt forward (player w) 0 (obstacles (game w)) in
  let w1 := set_obstacles os w in
  if hit then endGame w1 else w1.

(** The simulation part of a frame, once [dt] is known. *)
Definition frame (time dt : Q) (rnd : SpawnDraws) (w : World) : World :=
  obstaclesPass time dt
    (spawnObstacles dt rnd
       (laneInterpolation dt
          (scoreDifficulty dt w))).

Definition loop (time : Q) (rnd : SpawnDraws) (w : World) : World :=
  let g := game w in
  if negb (running g) || paused g then w else
  let dt := frameDt time g in
  let w1 := set_lastTime time w in
  if gameOver g then w1 else
  frame time dt rnd w1.

(** A run of frames, each with its timestamp and the random draws a
    spawn in that frame would use. *)
Fixpoint runFrames (fs : list (Q * SpawnDraws)) (w : World) : World :=
  match fs with
  | [] => w
  | (time, rnd) :: fs' => runFrames fs' (loop time rnd w)
  end.

(** The frame simulates only while the game is running, not paused
    and not over. *)
Definition active (g : GameState) : bool :=
  negb (negb (running g) || paused g) && negb (gameOver g).

(** The time a frame adds to the simulation: its clamped delta when the
    simulation part runs, nothing otherwise. *)
Definition activeDt (time : Q) (g : GameState) : Q :=
  if active g then frameDt time g else 0.

(** The simulated time a run of frames adds up. *)
Fixpoint simulatedTime (fs : list (Q * SpawnDraws)) (w : World) : Q :=
  match fs with
  | [] => 0
  | (time, rnd) :: fs' =>
      activeDt time (game w) + simulatedTime fs' (loop time rnd w)
  end.

(** The test the obstacle loop makes on the obstacle at index [i]: after
    its update it is still in the array (not past [z > 10]) and its box
    meets the player's sphere of radius 0.7. *)
Definition hits (time dt forward : Q) (p : Vector3) (i : nat)
    (o : Obstacle) : bool :=
  let o' := stepObstacle time dt forward i o in
  negb (vec_z (position (mesh o')) >? 10)
  && intersectsCube (mesh o') (vec_x p) (vec_y p) (vec_z p) 0.7.

(** One event on the touch state and the world. *)
Definition handle (e : Event) (s : TouchState * World) : TouchState * World :=
  match e with
  | Frame time rnd => (fst s, loop time rnd (snd s))
  | KeyDown now code => (fst s, onKeyDown now code (snd s))
  | TouchStart st_now now clientX clientY =>
      onTouchStart st_now now clientX clientY (fst s) (snd s)
  | TouchEnd clientX clientY =>
      (fst s, onTouchEnd clientX clientY (fst s) (snd s))
  | Click now => (fst s, onClick now (snd s))
  end.

Fixpoint handleAll (es : list Event) (s : TouchState * World)
  : TouchState * World :=
  match es with
  | [] => s
  | e :: es' => handleAll es' (handle e s)
  end.

(** A run of events each of which meets a condition [C] on the event and
    the world it arrives in. *)
Fixpoint allowed (C : Event -> World -> Prop) (es : list Event)
    (s : TouchState * World) : Prop :=
  match es with
  | [] => True
  | e :: es' => C e (snd s) /\ allowed C es' (handle e s)
  end.

(** One obstacle through a run of frames, [(time, dt, forward)] each,
    as long as it stays in the array at index [i]. *)
Fixpoint stepObstacleMany (steps : list (Q * Q * Q)) (i : nat) (o : Obstacle)
  : Obstacle :=
  match steps with
  | [] => o
  | (time, dt, forward) :: steps' =>
      stepObstacleMany steps' i (stepObstacle time dt forward i o)
  end.

(** The simulated time of such a run. *)
Definition fallTime (steps : list (Q * Q * Q)) : Q :=
  fold_right (fun s acc => snd (fst s) + acc) 0 steps.

(** * Properties *)

(** ** Comparisons and helpers *)

Lemma Qltb_lt (a b : Q) : (a <? b) = true <-> a < b.
Proof.
unfold Qltb. rewrite Qlt_alt. destruct (a ?= b); intuition congruence.
Qed.

Lemma Qltb_ge (a b : Q) : (a <? b) = false <-> b <= a.
Proof.
rewrite <- not_true_iff_false, Qltb_lt. split.
- apply Qnot_lt_le.
- apply Qle_not_lt.
Qed.

Lemma Qgtb_gt (a b : Q) : (a >? b) = true <-> b < a.
Proof. apply Qltb_lt. Qed.

Lemma Qgtb_le (a b : Q) : (a >? b) = false <-> a <= b.
Proof. apply Qltb_ge. Qed.

Lemma Qleb_le (a b : Q) : (a <=? b) = true <-> a <= b.
Proof.
unfold Qleb. rewrite Qle_alt. destruct (a ?= b); intuition congruence.
Qed.

Lemma Qleb_gt (a b : Q) : (a <=? b) = false <-> b < a.
Proof.
rewrite <- not_true_iff_false, Qleb_le. split.
- apply Qnot_le_lt.
- apply Qlt_not_le.
Qed.

#[local] Instance Qltb_comp : Proper (Qeq ==> Qeq ==> eq) Qltb.
Proof. intros a a' Ha b b' Hb. unfold Qltb. now rewrite Ha, Hb. Qed.

#[local] Instance Math_min_comp : Proper (Qeq ==> Qeq ==> Qeq) Math_min.
Proof. intros a a' Ha b b' Hb. unfold Math_min. now rewrite Ha, Hb. Qed.

#[local] Instance Math_max_comp : Proper (Qeq ==> Qeq ==> Qeq) Math_max.
Proof. intros a a' Ha b b' Hb. unfold Math_max. now rewrite Ha, Hb. Qed.

#[local] Instance clamp_comp : Proper (Qeq ==> Qeq ==> Qeq ==> Qeq) clamp.
Proof.
intros a a' Ha b b' Hb c c' Hc. unfold clamp. now rewrite Ha, Hb, Hc.
Qed.

Lemma Math_min_add (a b c : Q) : Math_min (a + c) (b + c) == Math_min a b + c.
Proof.
unfold Math_min.
destruct (Q.min_spec a b) as [[H E] | [H E]]; rewrite E.
- apply Q.min_l. lra.
- apply Q.min_r. lra.
Qed.

Lemma Math_max_add (a b c : Q) : Math_max (a + c) (b + c) == Math_max a b + c.
Proof.
unfold Math_max.
destruct (Q.max_spec a b) as [[H E] | [H E]]; rewrite E.
- apply Q.max_r. lra.
- apply Q.max_l. lra.
Qed.

Lemma clamp_translate (v lo hi t : Q) :
clamp (v + t) (lo + t) (hi + t) == clamp v lo hi + t.
Proof. unfold clamp. now rewrite Math_min_add, Math_max_add. Qed.

Lemma sq_mono (a b : Q) : 0 <= a <= b -> a * a <= b * b.
Proof. intros [H1 H2]. nra. Qed.

Lemma sq_dist_mono (c q v : Q) :
v <= c <= q \/ q <= c <= v -> (c - v) * (c - v) <= (q - v) * (q - v).
Proof.
intros [[H1 H2] | [H1 H2]].
- apply sq_mono. lra.
- setoid_replace ((c - v) * (c - v)) with ((v - c) * (v - c)) by ring.
  setoid_replace ((q - v) * (q - v)) with ((v - q) * (v - q)) by ring.
  apply sq_mono. lra.
Qed.

(** The three cases of [clamp] on a well-formed interval. *)
Lemma clamp_cases (v lo hi : Q) :
lo <= hi ->
(v <= lo /\ clamp v lo hi == lo) \/
(lo <= v <= hi /\ clamp v lo hi == v) \/
(hi <= v /\ clamp v lo hi == hi).
Proof.
intros H. unfold clamp, Math_max, Math_min.
destruct (Q.min_spec hi v) as [[H1 E1] | [H1 E1]];
  destruct (Q.max_spec lo (Qmin hi v)) as [[H2 E2] | [H2 E2]];
  rewrite E2; rewrite E1 in *.
- right; right. split; [lra | reflexivity].
- right; right. split; lra.
- right; left. split; [lra | reflexivity].
- left. split; [lra | reflexivity].
Qed.

Lemma clamp_in_range (v lo hi : Q) :
lo <= hi -> lo <= clamp v lo hi <= hi.
Proof.
intros H.
destruct (clamp_cases v lo hi H) as [[H1 E] | [[H1 E] | [H1 E]]];
  rewrite E; lra.
Qed.

Lemma clamp_nearest (v lo hi q : Q) :
lo <= q <= hi ->
(clamp v lo hi - v) * (clamp v lo hi - v) <= (q - v) * (q - v).
Proof.
intros Hq.
assert (H : lo <= hi) by lra.
destruct (clamp_cases v lo hi H) as [[H1 E] | [[H1 E] | [H1 E]]];
  rewrite E; apply sq_dist_mono; lra.
Qed.

(** ** Collision test *)

Lemma intersectsBox_dist2 (box : Box3) (p : Vector3) (radius : Q) :
intersectsBox box (vec_x p) (vec_y p) (vec_z p) radius = true <->
dist2 (closestPoint box p) p < radius * radius.
Proof. unfold intersectsBox, dist2, closestPoint. cbn. apply Qltb_lt. Qed.

Lemma closestPoint_inBox (box : Box3) (p : Vector3) :
wellFormedBox box -> inBox box (closestPoint box p).
Proof.
intros (Hx & Hy & Hz). unfold inBox, closestPoint. cbn.
repeat split; now apply clamp_in_range.
Qed.

Lemma closestPoint_nearest (box : Box3) (p q : Vector3) :
inBox box q -> dist2 (closestPoint box p) p <= dist2 q p.
Proof.
intros (Hx & Hy & Hz). unfold dist2, closestPoint. cbn.
pose proof (clamp_nearest (vec_x p) _ _ _ Hx).
pose proof (clamp_nearest (vec_y p) _ _ _ Hy).
pose proof (clamp_nearest (vec_z p) _ _ _ Hz).
lra.
Qed.

Lemma intersectsBox_comp (b b' : Box3) (px py pz r px' py' pz' : Q) :
vec_x (box_min b) == vec_x (box_min b') ->
vec_y (box_min b) == vec_y (box_min b') ->
vec_z (box_min b) == vec_z (box_min b') ->
vec_x (box_max b) == vec_x (box_max b') ->
vec_y (box_max b) == vec_y (box_max b') ->
vec_z (box_max b) == vec_z (box_max b') ->
px == px' -> py == py' -> pz == pz' ->
intersectsBox b px py pz r = intersectsBox b' px' py' pz' r.
Proof.
intros E1 E2 E3 E4 E5 E6 Ex Ey Ez. unfold intersectsBox.
apply Qltb_comp; [| reflexivity].
now rewrite E1, E2, E3, E4, E5, E6, Ex, Ey, Ez.
Qed.

Lemma intersectsBox_translate (box : Box3) (p v : Vector3) (radius : Q) :
intersectsBox (translateBox v box)
  (vec_x p + vec_x v) (vec_y p + vec_y v) (vec_z p + vec_z v) radius
= intersectsBox box (vec_x p) (vec_y p) (vec_z p) radius.
Proof.
unfold intersectsBox, translateBox, translateVec. cbn.
apply Qltb_comp; [| reflexivity].
rewrite !clamp_translate. ring.
Qed.

(** ** The frame, field by field *)

Ltac proj :=
  cbn [game player storage ui_score ui_topScore ui_isPaused ui_showOverlay
     ui_laneColorIndex nextObjectId allocateObject object_id running paused gameOver lastTime laneIndex
     laneStartX laneTargetX laneT laneDuration speed difficulty spawnTimer
     spawnInterval score topScore obstacles blocksSpawned
     set_game set_player_x updateLaneColors
     mesh o_laneIndex falling vy landed
     position scale rotation_y geometry emissiveIntensity
     set_position set_rotation_y set_emissiveIntensity newMesh
     vec_x vec_y vec_z width height depth fst snd] in *.

Ltac split_world w := destruct w as [[] ? ? ? ? ? ? ? ?].

Ltac by_cases :=
  repeat match goal with
         | |- context [if ?b then _ else _] => destruct b; proj
         | |- context [let (_, _) := ?p in _] => destruct p; proj
         end;
  repeat split; try reflexivity.

(** What each block of the frame leaves alone. *)
Lemma scoreDifficulty_fields (dt : Q) (w : World) :
  let g := game w in
  let w' := scoreDifficulty dt w in
  let g' := game w' in
  difficulty g' = difficulty g + dt * 0.03 /\
  speed g' = 6 + difficulty g' * 4 /\
  spawnInterval g' = Math_max 0.5 (1.2 - difficulty g' * 0.05) /\
  score g' = score g + dt * (8 + difficulty g * 2).
Proof. split_world w. unfold scoreDifficulty. proj. by_cases. Qed.

Lemma scoreDifficulty_keeps (dt : Q) (w : World) :
  let g := game w in
  let w' := scoreDifficulty dt w in
  let g' := game w' in
  running g' = running g /\ paused g' = paused g /\
  gameOver g' = gameOver g /\ lastTime g' = lastTime g /\
  laneIndex g' = laneIndex g /\ laneStartX g' = laneStartX g /\
  laneTargetX g' = laneTargetX g /\ laneT g' = laneT g /\
  laneDuration g' = laneDuration g /\
  spawnTimer g' = spawnTimer g /\ topScore g' = topScore g /\
  obstacles g' = obstacles g /\ blocksSpawned g' = blocksSpawned g /\
  player w' = player w /\ storage w' = storage w /\
  nextObjectId w' = nextObjectId w.
Proof. split_world w. unfold scoreDifficulty. proj. by_cases. Qed.

Lemma laneInterpolation_keeps (dt : Q) (w : World) :
  let g := game w in
  let w' := laneInterpolation dt w in
  let g' := game w' in
  running g' = running g /\ paused g' = paused g /\
  gameOver g' = gameOver g /\ lastTime g' = lastTime g /\
  laneIndex g' = laneIndex g /\ laneStartX g' = laneStartX g /\
  laneTargetX g' = laneTargetX g /\ laneDuration g' = laneDuration g /\
  speed g' = speed g /\ difficulty g' = difficulty g /\
  spawnTimer g' = spawnTimer g /\ spawnInterval g' = spawnInterval g /\
  score g' = score g /\ topScore g' = topScore g /\
  obstacles g' = obstacles g /\ blocksSpawned g' = blocksSpawned g /\
  vec_y (player w') = vec_y (player w) /\
  vec_z (player w') = vec_z (player w) /\
  storage w' = storage w /\ nextObjectId w' = nextObjectId w.
Proof.
  split_world w. unfold laneInterpolation, set_laneT. proj. by_cases.
Qed.

Lemma spawnObstacles_keeps (dt : Q) (rnd : SpawnDraws) (w : World) :
  let g := game w in
  let w' := spawnObstacles dt rnd w in
  let g' := game w' in
  running g' = running g /\ paused g' = paused g /\
  gameOver g' = gameOver g /\ lastTime g' = lastTime g /\
  laneIndex g' = laneIndex g /\ laneStartX g' = laneStartX g /\
  laneTargetX g' = laneTargetX g /\ laneT g' = laneT g /\
  laneDuration g' = laneDuration g /\
  speed g' = speed g /\ difficulty g' = difficulty g /\
  spawnInterval g' = spawnInterval g /\
  score g' = score g /\ topScore g' = topScore g /\
  player w' = player w /\ storage w' = storage w.
Proof.
  split_world w. unfold spawnObstacles, spawnObstacle, set_spawnTimer.
  proj. by_cases.
Qed.

Lemma obstaclesPass_keeps (time dt : Q) (w : World) :
  let g := game w in
  let w' := obstaclesPass time dt w in
  let g' := game w' in
  paused g' = paused g /\ lastTime g' = lastTime g /\
  laneIndex g' = laneIndex g /\ laneStartX g' = laneStartX g /\
  laneTargetX g' = laneTargetX g /\ laneT g' = laneT g /\
  laneDuration g' = laneDuration g /\
  speed g' = speed g /\ difficulty g' = difficulty g /\
  spawnTimer g' = spawnTimer g /\ spawnInterval g' = spawnInterval g /\
  score g' = score g /\ blocksSpawned g' = blocksSpawned g /\
  player w' = player w /\ nextObjectId w' = nextObjectId w.
Proof.
  split_world w. unfold obstaclesPass, endGame, set_obstacles.
  proj. by_cases.
Qed.

(** ** Obstacles: landing is final *)

Lemma later_refl (o : Obstacle) : later o o.
Proof. split; auto. Qed.

Lemma later_trans (o1 o2 o3 : Obstacle) :
  later o1 o2 -> later o2 o3 -> later o1 o3.
Proof.
  intros [I12 H12] [I23 H23]. split; [congruence |].
  intros H1.
  destruct (H12 H1) as (L2 & F2 & Y2).
  destruct (H23 L2) as (L3 & F3 & Y3).
  repeat split; congruence.
Qed.

Lemma stepObstacle_later (time dt forward : Q) (i : nat) (o : Obstacle) :
  later o (stepObstacle time dt forward i o).
Proof.
  unfold stepObstacle. split.
  - destruct (falling o && negb (landed o));
      [destruct (_ <=? _) | destruct (landed o)]; reflexivity.
  - intros H. rewrite H, andb_false_r. proj. auto.
Qed.

Lemma survives_refl (n : Z) (os : list Obstacle) : survives n os os.
Proof.
  induction os as [| o os IH]; constructor; auto using later_refl.
Qed.

(** Every obstacle of the later array is a later state of one of the
    earlier array, or an object created since. *)
Lemma survives_origin (n : Z) (os os' : list Obstacle) :
  survives n os os' ->
  forall o', In o' os' ->
    (exists o, In o os /\ later o o') \/ (n <= object_id (mesh o'))%Z.
Proof.
  induction 1 as [news Hn | o1 o1' os os' Hl Hs IH | o1 os os' Hs IH];
    intros o' Hin.
  - right. rewrite Forall_forall in Hn. auto.
  - destruct Hin as [<- | Hin].
    + left. exists o1. split; [now left | assumption].
    + destruct (IH o' Hin) as [(o & Ho & Hlo) | Hnew]; [left | now right].
      exists o. split; [now right | assumption].
  - destruct (IH o' Hin) as [(o & Ho & Hlo) | Hnew]; [left | now right].
    exists o. split; [now right | assumption].
Qed.

Lemma survives_trans (n n' : Z) (a b c : list Obstacle) :
  (n <= n')%Z -> survives n a b -> survives n' b c -> survives n a c.
Proof.
  intros Hn Hab. revert c.
  induction Hab as [news Hnews | o o' os os' Hl Hs IH | o os os' Hs IH];
    intros c Hbc.
  - constructor. rewrite Forall_forall in *. intros o' Hin.
    destruct (survives_origin _ _ _ Hbc o' Hin) as [(o & Ho & [Hid _]) | H].
    + rewrite Hid. auto.
    + lia.
  - inversion Hbc; subst.
    + apply survives_keep; eauto using later_trans.
    + apply survives_destroyed; auto.
  - apply survives_destroyed; auto.
Qed.

Lemma survives_push (n : Z) (os : list Obstacle) (o : Obstacle) :
  (n <= object_id (mesh o))%Z -> survives n os (os ++ [o]).
Proof.
  intros Hn. induction os as [| o1 os IH]; cbn.
  - constructor. auto.
  - apply survives_keep; auto using later_refl.
Qed.

Lemma updateObstacles_survives (n : Z) (time dt forward : Q) (p : Vector3)
    (os : list Obstacle) :
  forall i, survives n os (fst (updateObstacles time dt forward p i os)).
Proof.
  induction os as [| o os IH]; intros i; cbn [updateObstacles].
  - constructor. constructor.
  - specialize (IH (S i)).
    destruct (updateObstacles time dt forward p (S i) os) as [rest' hit].
    cbn [fst] in IH.
    destruct hit; cbn [fst].
    + apply survives_keep; auto using later_refl.
    + destruct (_ >? 10); cbn [fst].
      * apply survives_destroyed; auto.
      * destruct (intersectsCube _ _ _ _ _); cbn [fst];
          apply survives_keep; auto using stepObstacle_later.
Qed.

Lemma obstaclesPass_survives (time dt : Q) (w : World) :
  survives (nextObjectId w) (obstacles (game w))
    (obstacles (game (obstaclesPass time dt w))) /\
  nextObjectId (obstaclesPass time dt w) = nextObjectId w.
Proof.
  unfold obstaclesPass.
  pose proof (updateObstacles_survives (nextObjectId w) time dt
                (speed (game w) * dt) (player w) (obstacles (game w)) 0)
    as H.
  destruct (updateObstacles _ _ _ _ _ _) as [os hit]. cbn [fst] in H.
  destruct hit; split; solve [exact H | reflexivity].
Qed.

Lemma spawnObstacles_survives (dt : Q) (rnd : SpawnDraws) (w : World) :
  survives (nextObjectId w) (obstacles (game w))
    (obstacles (game (spawnObstacles dt rnd w))) /\
  (nextObjectId w <= nextObjectId (spawnObstacles dt rnd w))%Z.
Proof.
  unfold spawnObstacles, spawnObstacle, set_spawnTimer. proj.
  destruct (_ >? _); proj.
  - destruct (_ =? _)%Z; proj;
      (split; [apply survives_push; unfold spawnedObstacle; proj; lia | lia]).
  - split; [apply survives_refl | lia].
Qed.

Lemma laneInterpolation_obstacles (dt : Q) (w : World) :
  obstacles (game (laneInterpolation dt (scoreDifficulty dt w)))
  = obstacles (game w) /\
  nextObjectId (laneInterpolation dt (scoreDifficulty dt w))
  = nextObjectId w.
Proof.
  unfold laneInterpolation, scoreDifficulty, set_laneT. proj.
  destruct (_ <? _); split; reflexivity.
Qed.

Lemma loop_survives (time : Q) (rnd : SpawnDraws) (w : World) :
  survives (nextObjectId w) (obstacles (game w))
    (obstacles (game (loop time rnd w))) /\
  (nextObjectId w <= nextObjectId (loop time rnd w))%Z.
Proof.
  unfold loop.
  destruct (negb (running (game w)) || paused (game w));
    [split; [apply survives_refl | lia] |].
  destruct (gameOver (game w)); [split; [apply survives_refl | cbn; lia] |].
  unfold frame.
  set (w0 := set_lastTime time w).
  set (dt := frameDt time (game w)).
  destruct (laneInterpolation_obstacles dt w0) as [E1 N1].
  set (w1 := laneInterpolation dt (scoreDifficulty dt w0)) in *.
  destruct (spawnObstacles_survives dt rnd w1) as [S2 N2].
  set (w2 := spawnObstacles dt rnd w1) in *.
  destruct (obstaclesPass_survives time dt w2) as [S3 N3].
  rewrite N3. rewrite E1, N1 in *.
  change (nextObjectId w0) with (nextObjectId w) in *.
  change (obstacles (game w0)) with (obstacles (game w)) in *.
  split; [| exact N2].
  eapply survives_trans; eauto.
Qed.

Lemma runFrames_survives (fs : list (Q * SpawnDraws)) :
  forall w,
    survives (nextObjectId w) (obstacles (game w))
      (obstacles (game (runFrames fs w))) /\
    (nextObjectId w <= nextObjectId (runFrames fs w))%Z.
Proof.
  induction fs as [| [time rnd] fs IH]; intros w; cbn [runFrames].
  - split; [apply survives_refl | lia].
  - destruct (loop_survives time rnd w) as [S1 N1].
    destruct (IH (loop time rnd w)) as [S2 N2].
    split; [eapply survives_trans; eauto | lia].
Qed.

(** With distinct objects, the obstacle of the later array that is the
    same object as a given earlier one is a later state of it. *)
Lemma survives_same_object (n : Z) (os os' : list Obstacle) :
  survives n os os' ->
  NoDup (map (fun o => object_id (mesh o)) os) ->
  Forall (fun o => (object_id (mesh o) < n)%Z) os ->
  forall o o', In o os -> In o' os' ->
    object_id (mesh o') = object_id (mesh o) -> later o o'.
Proof.
  induction 1 as [news Hn | o1 o1' os os' Hl Hs IH | o1 os os' Hs IH];
    intros Hnd Hlt o o' Ho Ho' Hid.
  - destruct Ho.
  - cbn in Hnd. inversion Hnd as [| ? ? Hnotin Hnd']; subst.
    inversion Hlt as [| ? ? Hlt1 Hlt']; subst.
    assert (Hfresh : forall x, In x os' ->
              object_id (mesh x) <> object_id (mesh o1)).
    { intros x Hx Hxid.
      destruct (survives_origin _ _ _ Hs x Hx) as [(y & Hy & [Hyid _]) | H].
      - apply Hnotin. rewrite <- Hxid, Hyid.
        apply (in_map (fun o => object_id (mesh o))). exact Hy.
      - lia. }
    destruct Ho as [<- | Ho]; destruct Ho' as [<- | Ho'].
    + exact Hl.
    + exfalso. apply (Hfresh o' Ho'). exact Hid.
    + exfalso. apply Hnotin. destruct Hl as [Hl1 _].
      rewrite <- Hl1, Hid.
      apply (in_map (fun o => object_id (mesh o))). exact Ho.
    + apply IH; auto.
  - cbn in Hnd. inversion Hnd as [| ? ? Hnotin Hnd']; subst.
    inversion Hlt as [| ? ? Hlt1 Hlt']; subst.
    destruct Ho as [<- | Ho].
    + exfalso.
      destruct (survives_origin _ _ _ Hs o' Ho') as [(y & Hy & [Hyid _]) | H].
      * apply Hnotin. rewrite <- Hid, Hyid.
        apply (in_map (fun o => object_id (mesh o))). exact Hy.
      * rewrite Hid in H. lia.
    + apply IH; auto.
Qed.

(** The frames keep the obstacle objects distinct. *)
Lemma stepObstacle_id (time dt forward : Q) (i : nat) (o : Obstacle) :
  object_id (mesh (stepObstacle time dt forward i o)) = object_id (mesh o).
Proof. apply stepObstacle_later. Qed.

Lemma updateObstacles_ids (time dt forward : Q) (p : Vector3)
    (os : list Obstacle) :
  forall i x,
    In x (map (fun o => object_id (mesh o))
            (fst (updateObstacles time dt forward p i os))) ->
    In x (map (fun o => object_id (mesh o)) os).
Proof.
  induction os as [| o os IH]; intros i x; cbn [updateObstacles].
  - auto.
  - specialize (IH (S i) x).
    destruct (updateObstacles time dt forward p (S i) os) as [rest' hit].
    cbn [fst] in IH.
    destruct hit; cbn [fst map In].
    + intuition.
    + destruct (_ >? 10); cbn [fst map In].
      * intuition.
      * destruct (intersectsCube _ _ _ _ _); cbn [fst map In];
          rewrite stepObstacle_id; intuition.
Qed.

Lemma updateObstacles_NoDup (time dt forward : Q) (p : Vector3)
    (os : list Obstacle) :
  forall i,
    NoDup (map (fun o => object_id (mesh o)) os) ->
    NoDup (map (fun o => object_id (mesh o))
             (fst (updateObstacles time dt forward p i os))).
Proof.
  induction os as [| o os IH]; intros i Hnd; cbn [updateObstacles].
  - constructor.
  - cbn [map] in Hnd. inversion Hnd as [| ? ? Hnotin Hnd']; subst.
    pose proof (updateObstacles_ids time dt forward p os (S i)) as Hids.
    specialize (IH (S i) Hnd').
    destruct (updateObstacles time dt forward p (S i) os) as [rest' hit].
    cbn [fst] in IH, Hids.
    destruct hit; cbn [fst map].
    + constructor; auto.
    + destruct (_ >? 10); cbn [fst map]; [assumption |].
      destruct (intersectsCube _ _ _ _ _); cbn [fst map];
        rewrite stepObstacle_id; constructor; auto.
Qed.

Lemma obstaclesPass_obstacles (time dt : Q) (w : World) :
  obstacles (game (obstaclesPass time dt w))
  = fst (updateObstacles time dt (speed (game w) * dt) (player w) 0
           (obstacles (game w))).
Proof.
  unfold obstaclesPass.
  destruct (updateObstacles _ _ _ _ _ _) as [os hit].
  destruct hit; reflexivity.
Qed.

Lemma obstaclesPass_distinct (time dt : Q) (w : World) :
  distinctObjects w -> distinctObjects (obstaclesPass time dt w).
Proof.
  intros [Hnd Hlt]. unfold distinctObjects.
  destruct (obstaclesPass_survives time dt w) as [_ ->].
  rewrite obstaclesPass_obstacles. split.
  - now apply updateObstacles_NoDup.
  - rewrite Forall_forall in *. intros o' Ho'.
    pose proof (updateObstacles_ids time dt (speed (game w) * dt)
                  (player w) (obstacles (game w)) 0
                  (object_id (mesh o'))
                  (in_map (fun o => object_id (mesh o)) _ _ Ho')) as Hin.
    apply in_map_iff in Hin. destruct Hin as (o & <- & Ho). auto.
Qed.

Lemma spawnObstacles_distinct (dt : Q) (rnd : SpawnDraws) (w : World) :
  distinctObjects w -> distinctObjects (spawnObstacles dt rnd w).
Proof.
  intros [Hnd Hlt]. unfold distinctObjects in *.
  unfold spawnObstacles, spawnObstacle, set_spawnTimer. proj.
  assert (Hpush :
    NoDup (map (fun o => object_id (mesh o))
             (obstacles (game w)
              ++ [spawnedObstacle (nextObjectId w) rnd
                    (game (set_spawnTimer 0
                       (set_spawnTimer (spawnTimer (game w) + dt) w)))])) /\
    Forall (fun o => (object_id (mesh o) < nextObjectId w + 1)%Z)
      (obstacles (game w)
       ++ [spawnedObstacle (nextObjectId w) rnd
             (game (set_spawnTimer 0
                (set_spawnTimer (spawnTimer (game w) + dt) w)))])).
  { split.
    - rewrite map_app. cbn [map]. unfold spawnedObstacle at 1. proj.
      apply NoDup_app; [assumption | repeat constructor; auto |].
      intros x Hx [<- | []].
      apply in_map_iff in Hx. destruct Hx as (o & Ho & Hin).
      rewrite Forall_forall in Hlt. specialize (Hlt o Hin). lia.
    - apply Forall_app. split.
      + eapply Forall_impl; [| exact Hlt]. cbn. intros. lia.
      + repeat constructor. unfold spawnedObstacle. proj. lia. }
  destruct (_ >? _); proj; [| split; assumption].
  destruct (_ =? _)%Z; proj; exact Hpush.
Qed.

Lemma loop_distinct (time : Q) (rnd : SpawnDraws) (w : World) :
  distinctObjects w -> distinctObjects (loop time rnd w).
Proof.
  intros H. unfold loop.
  destruct (negb (running (game w)) || paused (game w)); [assumption |].
  destruct (gameOver (game w)); [exact H |].
  unfold frame.
  apply obstaclesPass_distinct, spawnObstacles_distinct.
  unfold distinctObjects.
  destruct (laneInterpolation_obstacles (frameDt time (game w))
              (set_lastTime time w)) as [-> ->].
  exact H.
Qed.

Lemma runFrames_distinct (fs : list (Q * SpawnDraws)) :
  forall w, distinctObjects w -> distinctObjects (runFrames fs w).
Proof.
  induction fs as [| [time rnd] fs IH]; intros w H; cbn [runFrames].
  - assumption.
  - apply IH, loop_distinct, H.
Qed.

Lemma startGame_distinct (now : Q) (w0 : World) :
  distinctObjects (startGame now w0).
Proof. split; constructor. Qed.

(** C4. An obstacle that has landed stays landed and keeps its height:
    one update of the obstacle never takes it out of the landed state or
    moves it vertically; over any run of frames, a landed obstacle that
    is still in the array (the same object) is still landed, at the
    height it had; and this holds between any two moments of a run. *)
Theorem C4_landed_is_final :
  (forall (time dt forward : Q) (i : nat) (o : Obstacle),
      later o (stepObstacle time dt forward i o)) /\
  (forall (fs : list (Q * SpawnDraws)) (w : World) (o o' : Obstacle),
      distinctObjects w ->
      In o (obstacles (game w)) ->
      landed o = true ->
      In o' (obstacles (game (runFrames fs w))) ->
      object_id (mesh o') = object_id (mesh o) ->
      landed o' = true /\ falling o' = falling o /\
      vec_y (position (mesh o')) = vec_y (position (mesh o))) /\
  (forall (now : Q) (w0 : World) (fs1 fs2 : list (Q * SpawnDraws))
          (o o' : Obstacle),
      let w1 := runFrames fs1 (startGame now w0) in
      In o (obstacles (game w1)) ->
      landed o = true ->
      In o' (obstacles (game (runFrames fs2 w1))) ->
      object_id (mesh o') = object_id (mesh o) ->
      landed o' = true /\
      vec_y (position (mesh o')) = vec_y (position (mesh o))).
Proof.
  assert (Hrun : forall fs w o o',
             distinctObjects w ->
             In o (obstacles (game w)) ->
             landed o = true ->
             In o' (obstacles (game (runFrames fs w))) ->
             object_id (mesh o') = object_id (mesh o) ->
             landed o' = true /\ falling o' = falling o /\
             vec_y (position (mesh o')) = vec_y (position (mesh o))).
  { intros fs w o o' [Hnd Hlt] Ho Hland Ho' Hid.
    destruct (runFrames_survives fs w) as [Hs _].
    destruct (survives_same_object _ _ _ Hs Hnd Hlt o o' Ho Ho' Hid)
      as [_ H].
    auto. }
  split; [| split].
  - apply stepObstacle_later.
  - exact Hrun.
  - intros now w0 fs1 fs2 o o' w1 Ho Hland Ho' Hid.
    destruct (Hrun fs2 w1 o o') as (E1 & _ & E2); auto.
    apply runFrames_distinct, startGame_distinct.
Qed.

(** ** Collisions in the obstacle loop *)

Lemma updateObstacles_no_hit (time dt forward : Q) (p : Vector3)
    (os : list Obstacle) :
  forall i,
    (forall k o, nth_error os k = Some o ->
                 hits time dt forward p (i + k)%nat o = false) ->
    snd (updateObstacles time dt forward p i os) = false.
Proof.
  induction os as [| o os IH]; intros i Hno; cbn [updateObstacles].
  - reflexivity.
  - assert (Htail : snd (updateObstacles time dt forward p (S i) os) = false).
    { apply IH. intros k o' Hk.
      replace (S i + k)%nat with (i + S k)%nat by lia.
      apply Hno. exact Hk. }
    destruct (updateObstacles time dt forward p (S i) os) as [rest' hit].
    cbn [snd] in Htail. subst hit.
    specialize (Hno 0%nat o eq_refl).
    rewrite Nat.add_0_r in Hno. unfold hits in Hno.
    destruct (_ >? 10); [reflexivity |].
    cbn [negb andb] in Hno. rewrite Hno. reflexivity.
Qed.

Lemma updateObstacles_first_hit (time dt forward : Q) (p : Vector3)
    (o : Obstacle) (post : list Obstacle) (pre : list Obstacle) :
  forall i,
    hits time dt forward p (i + List.length pre)%nat o = true ->
    (forall k o', nth_error post k = Some o' ->
                  hits time dt forward p (S (i + List.length pre) + k)%nat o'
                  = false) ->
    updateObstacles time dt forward p i (pre ++ o :: post)
    = (pre ++ stepObstacle time dt forward (i + List.length pre)%nat o
             :: fst (updateObstacles time dt forward p
                       (S (i + List.length pre)) post),
       true).
Proof.
  induction pre as [| a pre IH]; intros i Hhit Hpost;
    cbn [app List.length updateObstacles].
  - rewrite Nat.add_0_r in *.
    pose proof (updateObstacles_no_hit time dt forward p post (S i) Hpost)
      as Htail.
    destruct (updateObstacles time dt forward p (S i) post) as [rest' hit].
    cbn [snd fst] in *. subst hit.
    unfold hits in Hhit. apply andb_true_iff in Hhit.
    destruct Hhit as [Hz Hc]. apply negb_true_iff in Hz.
    rewrite Hz, Hc. reflexivity.
  - cbn [List.length] in Hhit, Hpost.
    replace (i + S (List.length pre))%nat
      with (S i + List.length pre)%nat in * by lia.
    rewrite (IH (S i) Hhit Hpost). reflexivity.
Qed.

Lemma obstaclesPass_flags (time dt : Q) (w : World) :
  let r := updateObstacles time dt (speed (game w) * dt) (player w) 0
             (obstacles (game w)) in
  let g' := game (obstaclesPass time dt w) in
  obstacles g' = fst r /\
  (snd r = true -> gameOver g' = true /\ running g' = false) /\
  (snd r = false ->
   gameOver g' = gameOver (game w) /\ running g' = running (game w) /\
   topScore g' = topScore (game w) /\
   storage (obstaclesPass time dt w) = storage w).
Proof.
  cbv zeta. unfold obstaclesPass.
  destruct (updateObstacles _ _ _ _ _ _) as [os hit].
  destruct hit; cbn [fst snd]; repeat split; intros; congruence.
Qed.

(** C5. The collision test takes the point of the obstacle's bounding box
    obtained by clamping each player coordinate to the box, and answers
    true exactly when its squared distance to the player is below the
    squared radius; that point lies in a well-formed box and no point of
    the box is nearer to the player.  The obstacle loop, scanning from
    the last obstacle down with radius 0.7, ends the run (game over, not
    running) at the first obstacle that is still in the array and meets
    the player, leaving the obstacles before it as they were; with no
    such obstacle the run flags are unchanged. *)
Theorem C5_collision_detection :
  (forall (m : Mesh) (p : Vector3) (radius : Q),
      (intersectsCube m (vec_x p) (vec_y p) (vec_z p) radius = true <->
       dist2 (closestPoint (setFromObject m) p) p < radius * radius) /\
      (wellFormedBox (setFromObject m) ->
       inBox (setFromObject m) (closestPoint (setFromObject m) p)) /\
      (forall q, inBox (setFromObject m) q ->
                 dist2 (closestPoint (setFromObject m) p) p <= dist2 q p)) /\
  (forall (time dt : Q) (w : World) (pre post : list Obstacle) (o : Obstacle),
      let forward := speed (game w) * dt in
      obstacles (game w) = pre ++ o :: post ->
      hits time dt forward (player w) (List.length pre) o = true ->
      (forall k o', nth_error post k = Some o' ->
         hits time dt forward (player w) (S (List.length pre) + k)%nat o' = false) ->
      let g' := game (obstaclesPass time dt w) in
      gameOver g' = true /\ running g' = false /\
      obstacles g' =
        pre ++ stepObstacle time dt forward (List.length pre) o
            :: fst (updateObstacles time dt forward (player w)
                      (S (List.length pre)) post)) /\
  (forall (time dt : Q) (w : World),
      let forward := speed (game w) * dt in
      (forall k o, nth_error (obstacles (game w)) k = Some o ->
         hits time dt forward (player w) k o = false) ->
      let g' := game (obstaclesPass time dt w) in
      gameOver g' = gameOver (game w) /\ running g' = running (game w)).
Proof.
  split; [| split].
  - intros m p radius. split; [| split].
    + apply intersectsBox_dist2.
    + apply closestPoint_inBox.
    + intros q. apply closestPoint_nearest.
  - intros time dt w pre post o forward Hos Hhit Hpost g'.
    destruct (obstaclesPass_flags time dt w) as (Hobs & Hyes & _).
    fold forward in Hobs, Hyes. rewrite Hos in Hobs, Hyes.
    rewrite (updateObstacles_first_hit time dt forward (player w) o post pre
               0 Hhit Hpost) in Hobs, Hyes.
    cbn [fst snd] in Hobs, Hyes.
    destruct (Hyes eq_refl) as [Hg Hr]. auto.
  - intros time dt w forward Hno g'.
    destruct (obstaclesPass_flags time dt w) as (_ & _ & Hnone).
    fold forward in Hnone.
    destruct Hnone as (Hg & Hr & _); [| auto].
    apply updateObstacles_no_hit. exact Hno.
Qed.

(** ** Lane interpolation *)

Lemma laneInterpolation_moving (dt : Q) (w : World) :
  laneT (game w) < laneDuration (game w) ->
  let g := game w in
  let w' := laneInterpolation dt w in
  laneT (game w') = laneT g + dt /\
  vec_x (player w')
  = lerp (laneStartX g) (laneTargetX g)
      (smoothstep (Math_min 1 (laneT (game w') / laneDuration g))).
Proof.
  intros H. apply Qltb_lt in H. cbv zeta.
  unfold laneInterpolation. rewrite H.
  unfold set_laneT. proj. split; reflexivity.
Qed.

Lemma laneInterpolation_rest (dt : Q) (w : World) :
  laneDuration (game w) <= laneT (game w) ->
  laneInterpolation dt w = set_player_x (laneTargetX (game w)) w.
Proof.
  intros H. apply Qltb_ge in H.
  unfold laneInterpolation. rewrite H. reflexivity.
Qed.

Lemma smoothstep_1 (t : Q) : t == 1 -> smoothstep t == 1.
Proof. intros E. unfold smoothstep. rewrite E. reflexivity. Qed.

Lemma lerp_1 (a b t : Q) : t == 1 -> lerp a b t == b.
Proof. intros E. unfold lerp. rewrite E. ring. Qed.

Lemma laneInterpolation_arrival (dt : Q) (w : World) :
  0 < laneDuration (game w) ->
  laneDuration (game w) <= laneT (game (laneInterpolation dt w)) ->
  vec_x (player (laneInterpolation dt w)) == laneTargetX (game w).
Proof.
  intros Hd Hge.
  destruct (Qlt_le_dec (laneT (game w)) (laneDuration (game w))) as [Hlt | Hle].
  - destruct (laneInterpolation_moving dt w Hlt) as [Ht Hx].
    cbv zeta in Ht, Hx. rewrite Hx.
    apply lerp_1, smoothstep_1. unfold Math_min. apply Q.min_l.
    apply Qle_shift_div_l; [exact Hd |]. lra.
  - rewrite (laneInterpolation_rest dt w Hle). reflexivity.
Qed.

(** The lane fields of a whole frame are those the interpolation block
    leaves. *)
Lemma frame_lane (time dt : Q) (rnd : SpawnDraws) (w : World) :
  let w1 := laneInterpolation dt w in
  let w' := frame time dt rnd w in
  laneT (game w') = laneT (game w1) /\
  vec_x (player w') = vec_x (player w1) /\
  laneStartX (game w') = laneStartX (game w) /\
  laneTargetX (game w') = laneTargetX (game w) /\
  laneDuration (game w') = laneDuration (game w) /\
  laneIndex (game w') = laneIndex (game w).
Proof.
  cbv zeta. unfold frame.
  set (w2 := laneInterpolation dt (scoreDifficulty dt w)).
  set (w3 := spawnObstacles dt rnd w2).
  pose proof (obstaclesPass_keeps time dt w3) as K3.
  pose proof (spawnObstacles_keeps dt rnd w2) as K2.
  cbv zeta in K3, K2. fold w3 in K2.
  destruct K3 as (_ & _ & -> & -> & -> & -> & -> & _ & _ & _ & _ & _ & _
                  & -> & _).
  destruct K2 as (_ & _ & _ & _ & -> & -> & -> & -> & -> & _ & _ & _ & _
                  & _ & -> & _).
  subst w2. split_world w.
  unfold laneInterpolation, scoreDifficulty, set_laneT. proj. by_cases.
Qed.

Lemma loop_at_rest (time : Q) (rnd : SpawnDraws) (w : World) :
  laneDuration (game w) <= laneT (game w) ->
  vec_x (player w) = laneTargetX (game w) ->
  let w' := loop time rnd w in
  laneDuration (game w') = laneDuration (game w) /\
  laneT (game w') = laneT (game w) /\
  laneTargetX (game w') = laneTargetX (game w) /\
  vec_x (player w') = laneTargetX (game w).
Proof.
  intros Hrest Hx. cbv zeta. unfold loop.
  destruct (negb (running (game w)) || paused (game w)); [auto |].
  destruct (gameOver (game w)); [auto |].
  destruct (frame_lane time (frameDt time (game w)) rnd (set_lastTime time w))
    as (-> & -> & _ & -> & -> & _).
  rewrite laneInterpolation_rest by exact Hrest.
  auto.
Qed.

(** C6. While the lane change is under way the interpolation block adds
    [dt] to the elapsed time and puts the player at the smoothstep
    interpolation between start and target; at rest it puts the player
    on the target; when the elapsed time has reached the duration the
    player is on the target; and at rest any run of frames leaves the
    player on the target. *)
Theorem C6_lane_advance :
  (forall (dt : Q) (w : World),
      let g := game w in
      let w' := laneInterpolation dt w in
      (laneT g < laneDuration g ->
       laneT (game w') = laneT g + dt /\
       vec_x (player w')
       = lerp (laneStartX g) (laneTargetX g)
           (smoothstep (Math_min 1 (laneT (game w') / laneDuration g)))) /\
      (laneDuration g <= laneT g ->
       laneT (game w') = laneT g /\ vec_x (player w') = laneTargetX g) /\
      (0 < laneDuration g -> laneDuration g <= laneT (game w') ->
       vec_x (player w') == laneTargetX g)) /\
  (forall (fs : list (Q * SpawnDraws)) (w : World),
      laneDuration (game w) <= laneT (game w) ->
      vec_x (player w) = laneTargetX (game w) ->
      vec_x (player (runFrames fs w)) = laneTargetX (game w) /\
      laneTargetX (game (runFrames fs w)) = laneTargetX (game w)).
Proof.
  split.
  - intros dt w g w'. split; [| split].
    + apply laneInterpolation_moving.
    + intros H. subst w'. rewrite (laneInterpolation_rest dt w H).
      split; reflexivity.
    + apply laneInterpolation_arrival.
  - intros fs. induction fs as [| [time rnd] fs IH]; intros w Hrest Hx;
      cbn [runFrames].
    + auto.
    + destruct (loop_at_rest time rnd w Hrest Hx) as (Ed & Et & Eg & Ex).
      destruct (IH (loop time rnd w)) as [IH1 IH2].
      * rewrite Ed, Et. exact Hrest.
      * rewrite Ex, Eg. reflexivity.
      * rewrite IH1, IH2, Eg. auto.
Qed.

(** ** Difficulty curve and spawn timer *)

Lemma frame_curve (time dt : Q) (rnd : SpawnDraws) (w : World) :
  let g := game w in
  let g' := game (frame time dt rnd w) in
  difficulty g' = difficulty g + dt * 0.03 /\
  speed g' = 6 + difficulty g' * 4 /\
  spawnInterval g' = Math_max 0.5 (1.2 - difficulty g' * 0.05) /\
  score g' = score g + dt * (8 + difficulty g * 2).
Proof.
  cbv zeta. unfold frame.
  set (w1 := scoreDifficulty dt w).
  set (w2 := laneInterpolation dt w1).
  set (w3 := spawnObstacles dt rnd w2).
  pose proof (obstaclesPass_keeps time dt w3) as K3.
  pose proof (spawnObstacles_keeps dt rnd w2) as K2.
  pose proof (laneInterpolation_keeps dt w1) as K1.
  pose proof (scoreDifficulty_fields dt w) as K0.
  cbv zeta in K3, K2, K1, K0. fold w1 in K0. fold w2 in K1. fold w3 in K2.
  destruct K3 as (_ & _ & _ & _ & _ & _ & _ & -> & -> & _ & -> & -> & _).
  destruct K2 as (_ & _ & _ & _ & _ & _ & _ & _ & _ & -> & -> & -> & -> & _).
  destruct K1 as (_ & _ & _ & _ & _ & _ & _ & _ & -> & -> & _ & -> & -> & _).
  exact K0.
Qed.

Lemma spawnObstacles_timer (dt : Q) (rnd : SpawnDraws) (w : World) :
  let g := game w in
  let g' := game (spawnObstacles dt rnd w) in
  ((spawnTimer g + dt >? spawnInterval g) = true ->
   spawnTimer g' = 0 /\ blocksSpawned g' = (blocksSpawned g + 1)%Z /\
   obstacles g'
   = obstacles g ++ [spawnedObstacle (nextObjectId w) rnd g']) /\
  ((spawnTimer g + dt >? spawnInterval g) = false ->
   spawnTimer g' = spawnTimer g + dt /\ blocksSpawned g' = blocksSpawned g /\
   obstacles g' = obstacles g).
Proof.
  cbv zeta. unfold spawnObstacles, set_spawnTimer. proj.
  destruct (_ >? _); split; intros H; try discriminate H.
  - unfold spawnObstacle. proj.
    destruct (_ =? _)%Z; proj; repeat split; reflexivity.
  - repeat split; reflexivity.
Qed.

(** The spawn timer of a whole frame: the new interval is computed
    first, the timer is compared against it after [dt] is added. *)
Lemma frame_spawn (time dt : Q) (rnd : SpawnDraws) (w : World) :
  let g := game w in
  let g' := game (frame time dt rnd w) in
  ((spawnTimer g + dt >? spawnInterval g') = true ->
   spawnTimer g' = 0 /\ blocksSpawned g' = (blocksSpawned g + 1)%Z) /\
  ((spawnTimer g + dt >? spawnInterval g') = false ->
   spawnTimer g' = spawnTimer g + dt /\ blocksSpawned g' = blocksSpawned g).
Proof.
  cbv zeta.
  destruct (frame_curve time dt rnd w) as (_ & _ & -> & _). cbv zeta.
  destruct (frame_curve time dt rnd w) as (-> & _).
  unfold frame.
  set (w1 := scoreDifficulty dt w).
  set (w2 := laneInterpolation dt w1).
  set (w3 := spawnObstacles dt rnd w2).
  pose proof (obstaclesPass_keeps time dt w3) as K3.
  pose proof (spawnObstacles_timer dt rnd w2) as K2.
  pose proof (laneInterpolation_keeps dt w1) as K1.
  pose proof (scoreDifficulty_fields dt w) as K0.
  pose proof (scoreDifficulty_keeps dt w) as K0'.
  cbv zeta in K3, K2, K1, K0, K0'.
  fold w1 in K0, K0'. fold w2 in K1, K2. fold w3 in K2.
  destruct K3 as (_ & _ & _ & _ & _ & _ & _ & _ & _ & -> & _ & _ & -> & _).
  destruct K1 as (_ & _ & _ & _ & _ & _ & _ & _ & _ & _ & E1 & E2 & _ & _
                  & _ & E3 & _).
  destruct K0 as (_ & _ & E4 & _).
  destruct K0' as (_ & _ & _ & _ & _ & _ & _ & _ & _ & E5 & _ & _ & E6 & _).
  rewrite E1, E2, E3, E4, E5, E6 in K2.
  destruct (scoreDifficulty_fields dt w) as (E7 & _). cbv zeta in E7.
  fold w1 in E7. rewrite E7 in K2.
  destruct K2 as [K2a K2b].
  split; intros H; [destruct (K2a H) as (? & ? & _)
                   | destruct (K2b H) as (? & ? & _)]; auto.
Qed.

Lemma loop_active (time : Q) (rnd : SpawnDraws) (w : World) :
  active (game w) = true ->
  loop time rnd w
  = frame time (frameDt time (game w)) rnd (set_lastTime time w).
Proof.
  unfold active, loop. intros H. apply andb_true_iff in H.
  destruct H as [H1 H2]. apply negb_true_iff in H1, H2.
  rewrite H1, H2. reflexivity.
Qed.

Lemma loop_inactive (time : Q) (rnd : SpawnDraws) (w : World) :
  active (game w) = false ->
  let g := game w in
  let g' := game (loop time rnd w) in
  difficulty g' = difficulty g /\ speed g' = speed g /\
  spawnInterval g' = spawnInterval g /\ score g' = score g /\
  spawnTimer g' = spawnTimer g /\ blocksSpawned g' = blocksSpawned g /\
  running g' = running g /\ paused g' = paused g /\
  gameOver g' = gameOver g /\ topScore g' = topScore g /\
  storage (loop time rnd w) = storage w.
Proof.
  unfold active, loop. intros H. cbv zeta.
  destruct (negb (running (game w)) || paused (game w));
    [repeat split; reflexivity |].
  destruct (gameOver (game w)) eqn:E; [| discriminate H].
  unfold set_lastTime. proj. repeat split; auto.
Qed.

Lemma loop_stopped (time : Q) (rnd : SpawnDraws) (w : World) :
  running (game w) = false \/ paused (game w) = true ->
  loop time rnd w = w.
Proof.
  unfold loop. intros [H | H]; rewrite H; [| rewrite orb_true_r]; reflexivity.
Qed.

Lemma frameDt_le (time : Q) (g : GameState) : frameDt time g <= 0.05.
Proof. unfold frameDt, Math_min. apply Q.le_min_r. Qed.

Lemma interval_ge (d : Q) : 0.5 <= Math_max 0.5 (1.2 - d * 0.05).
Proof. unfold Math_max. apply Q.le_max_l. Qed.

Lemma loop_clock (time : Q) (rnd : SpawnDraws) (w : World) :
  active (game w) = true ->
  let g := game w in
  let dt := frameDt time g in
  let g' := game (loop time rnd w) in
  (difficulty g' = difficulty g + dt * 0.03 /\
   speed g' = 6 + difficulty g' * 4 /\
   spawnInterval g' = Math_max 0.5 (1.2 - difficulty g' * 0.05) /\
   score g' = score g + dt * (8 + difficulty g * 2)) /\
  (((spawnTimer g + dt >? spawnInterval g') = true ->
    spawnTimer g' = 0 /\ blocksSpawned g' = (blocksSpawned g + 1)%Z) /\
   ((spawnTimer g + dt >? spawnInterval g') = false ->
    spawnTimer g' = spawnTimer g + dt /\ blocksSpawned g' = blocksSpawned g)).
Proof.
  intros Ha. cbv zeta. rewrite (loop_active time rnd w Ha).
  split.
  - exact (frame_curve time (frameDt time (game w)) rnd (set_lastTime time w)).
  - exact (frame_spawn time (frameDt time (game w)) rnd (set_lastTime time w)).
Qed.

Lemma loop_difficulty (time : Q) (rnd : SpawnDraws) (w : World) :
  difficulty (game (loop time rnd w))
  == difficulty (game w) + 0.03 * activeDt time (game w).
Proof.
  unfold activeDt. destruct (active (game w)) eqn:Ha.
  - destruct (loop_clock time rnd w Ha) as [(-> & _) _]. ring.
  - destruct (loop_inactive time rnd w Ha) as (-> & _). ring.
Qed.

Lemma simulatedTime_app (fs gs : list (Q * SpawnDraws)) :
  forall w,
    simulatedTime (fs ++ gs) w
    == simulatedTime fs w + simulatedTime gs (runFrames fs w).
Proof.
  induction fs as [| [time rnd] fs IH]; intros w;
    cbn [app simulatedTime runFrames].
  - ring.
  - rewrite IH. ring.
Qed.

Lemma runFrames_app (fs gs : list (Q * SpawnDraws)) :
  forall w, runFrames (fs ++ gs) w = runFrames gs (runFrames fs w).
Proof.
  induction fs as [| [time rnd] fs IH]; intros w; cbn [app runFrames]; auto.
Qed.

Lemma runFrames_difficulty (fs : list (Q * SpawnDraws)) :
  forall w,
    difficulty (game (runFrames fs w))
    == difficulty (game w) + 0.03 * simulatedTime fs w.
Proof.
  induction fs as [| [time rnd] fs IH]; intros w;
    cbn [simulatedTime runFrames].
  - ring.
  - rewrite IH, loop_difficulty. ring.
Qed.


(** ** Spawning *)

Lemma loop_count (time : Q) (rnd : SpawnDraws) (w : World) :
  let g := game w in
  let g' := game (loop time rnd w) in
  (blocksSpawned g' = blocksSpawned g /\
   spawnTimer g' == spawnTimer g + activeDt time g) \/
  (blocksSpawned g' = (blocksSpawned g + 1)%Z /\ spawnTimer g' = 0 /\
   active g = true /\
   spawnInterval g' < spawnTimer g + activeDt time g).
Proof.
  cbv zeta. unfold activeDt. destruct (active (game w)) eqn:Ha.
  - destruct (loop_clock time rnd w Ha) as [_ [Hy Hn]]. cbv zeta in Hy, Hn.
    destruct (_ >? _) eqn:Hc.
    + right. destruct (Hy eq_refl) as [-> ->]. apply Qgtb_gt in Hc. auto.
    + left. destruct (Hn eq_refl) as [-> ->]. split; reflexivity.
  - left. destruct (loop_inactive time rnd w Ha)
      as (_ & _ & _ & _ & -> & -> & _).
    split; [reflexivity | ring].
Qed.

Lemma loop_count_mono (time : Q) (rnd : SpawnDraws) (w : World) :
  (blocksSpawned (game w) <= blocksSpawned (game (loop time rnd w)))%Z.
Proof. destruct (loop_count time rnd w) as [[-> _] | [-> _]]; lia. Qed.

Lemma runFrames_count_mono (fs : list (Q * SpawnDraws)) :
  forall w, (blocksSpawned (game w) <= blocksSpawned (game (runFrames fs w)))%Z.
Proof.
  induction fs as [| [time rnd] fs IH]; intros w; cbn [runFrames].
  - lia.
  - pose proof (loop_count_mono time rnd w). specialize (IH (loop time rnd w)).
    lia.
Qed.

(** Without a spawn the timer is the simulated time added up. *)
Lemma runFrames_timer (fs : list (Q * SpawnDraws)) :
  forall w,
    blocksSpawned (game (runFrames fs w)) = blocksSpawned (game w) ->
    spawnTimer (game (runFrames fs w))
    == spawnTimer (game w) + simulatedTime fs w.
Proof.
  induction fs as [| [time rnd] fs IH]; intros w Hc;
    cbn [simulatedTime runFrames] in *.
  - ring.
  - pose proof (loop_count_mono time rnd w) as M1.
    pose proof (runFrames_count_mono fs (loop time rnd w)) as M2.
    destruct (loop_count time rnd w) as [[E T] | [E _]]; [| lia].
    rewrite IH by lia. rewrite T. ring.
Qed.

(** A spawn cannot come before the timer, which gains at most 0.05 per
    frame, has passed the least interval 0.5. *)
Lemma no_spawn_soon (fs : list (Q * SpawnDraws)) :
  forall w,
    spawnTimer (game w) + 0.05 * inject_Z (Z.of_nat (List.length fs)) <= 0.5 ->
    blocksSpawned (game (runFrames fs w)) = blocksSpawned (game w).
Proof.
  induction fs as [| [time rnd] fs IH]; intros w Hb; cbn [runFrames].
  - reflexivity.
  - cbn [List.length] in Hb. rewrite Nat2Z.inj_succ, <- Z.add_1_r in Hb.
    rewrite inject_Z_plus in Hb.
    assert (Hdt : activeDt time (game w) <= 0.05).
    { unfold activeDt. destruct (active (game w)); [apply frameDt_le | lra]. }
    destruct (loop_count time rnd w) as [[E T] | (_ & _ & Ha & Hlt)].
    + rewrite IH; [exact E |]. rewrite T.
      change (inject_Z 1) with 1 in Hb. lra.
    + exfalso.
      destruct (loop_clock time rnd w Ha) as [(_ & _ & Hi & _) _].
      cbv zeta in Hi. rewrite Hi in Hlt.
      pose proof (interval_ge (difficulty (game (loop time rnd w)))) as Hge.
      pose proof (Zle_0_nat (List.length fs)) as Hn.
      assert (0 <= inject_Z (Z.of_nat (List.length fs))).
      { change 0 with (inject_Z 0). rewrite <- Zle_Qle. exact Hn. }
      change (inject_Z 1) with 1 in Hb. lra.
Qed.

Lemma updateObstacles_length (time dt forward : Q) (p : Vector3)
    (os : list Obstacle) :
  forall i,
    (List.length (fst (updateObstacles time dt forward p i os))
     <= List.length os)%nat.
Proof.
  induction os as [| o os IH]; intros i; cbn [updateObstacles].
  - auto.
  - specialize (IH (S i)).
    destruct (updateObstacles time dt forward p (S i) os) as [rest' hit].
    cbn [fst] in IH.
    destruct hit; cbn [fst List.length]; [lia |].
    destruct (_ >? 10); cbn [fst List.length]; [lia |].
    destruct (intersectsCube _ _ _ _ _); cbn [fst List.length]; lia.
Qed.

Lemma loop_obstacles_length (time : Q) (rnd : SpawnDraws) (w : World) :
  (List.length (obstacles (game (loop time rnd w)))
   <= List.length (obstacles (game w))
      + Z.to_nat (blocksSpawned (game (loop time rnd w))
                  - blocksSpawned (game w)))%nat.
Proof.
  destruct (active (game w)) eqn:Ha.
  - rewrite (loop_active time rnd w Ha). unfold frame.
    set (dt := frameDt time (game w)).
    set (w2 := laneInterpolation dt (scoreDifficulty dt (set_lastTime time w))).
    set (w3 := spawnObstacles dt rnd w2).
    destruct (obstaclesPass_keeps time dt w3)
      as (_ & _ & _ & _ & _ & _ & _ & _ & _ & _ & _ & _ & -> & _).
    rewrite obstaclesPass_obstacles.
    pose proof (updateObstacles_length time dt (speed (game w3) * dt)
                  (player w3) (obstacles (game w3)) 0) as L.
    destruct (laneInterpolation_obstacles dt (set_lastTime time w)) as [E _].
    fold w2 in E.
    change (obstacles (game (set_lastTime time w)))
      with (obstacles (game w)) in E.
    assert (Eb : blocksSpawned (game w2) = blocksSpawned (game w)).
    { subst w2.
      destruct (laneInterpolation_keeps dt
                  (scoreDifficulty dt (set_lastTime time w)))
        as (_ & _ & _ & _ & _ & _ & _ & _ & _ & _ & _ & _ & _ & _ & _ & -> & _).
      destruct (scoreDifficulty_keeps dt (set_lastTime time w))
        as (_ & _ & _ & _ & _ & _ & _ & _ & _ & _ & _ & _ & -> & _).
      reflexivity. }
    destruct (spawnObstacles_timer dt rnd w2) as [Hy Hn]. fold w3 in Hy, Hn.
    destruct (spawnTimer (game w2) + dt >? spawnInterval (game w2)).
    + destruct (Hy eq_refl) as (_ & Ec & Eo).
      apply (f_equal (@List.length Obstacle)) in Eo.
      rewrite length_app in Eo. cbn [List.length] in Eo.
      rewrite Ec, Eb, <- E. lia.
    + destruct (Hn eq_refl) as (_ & Ec & Eo).
      apply (f_equal (@List.length Obstacle)) in Eo.
      rewrite Ec, Eb, <- E. lia.
  - unfold loop, active in *.
    destruct (negb (running (game w)) || paused (game w)); [lia |].
    destruct (gameOver (game w)); [cbn; lia | discriminate Ha].
Qed.

(** C10. A frame spawns at most one obstacle, whatever its delta: the
    spawn count stays or goes up by one, and so does at most the number
    of obstacles; on a spawn the timer is put back to 0.  Between a
    moment when the timer is 0 and the next spawn, the simulated time
    that has passed exceeds the spawn interval then in force, which is at
    least 0.5 seconds. *)
Theorem C10_one_spawn_per_frame :
  (forall (time : Q) (rnd : SpawnDraws) (w : World),
      let g := game w in
      let g' := game (loop time rnd w) in
      ((blocksSpawned g' = blocksSpawned g /\
        (List.length (obstacles g') <= List.length (obstacles g))%nat) \/
       (blocksSpawned g' = (blocksSpawned g + 1)%Z /\ spawnTimer g' = 0 /\
        (List.length (obstacles g') <= S (List.length (obstacles g)))%nat))) /\
  (forall (fs : list (Q * SpawnDraws)) (time : Q) (rnd : SpawnDraws)
          (w : World),
      spawnTimer (game w) == 0 ->
      blocksSpawned (game (runFrames fs w)) = blocksSpawned (game w) ->
      blocksSpawned (game (loop time rnd (runFrames fs w)))
      = (blocksSpawned (game w) + 1)%Z ->
      let g' := game (loop time rnd (runFrames fs w)) in
      0.5 <= spawnInterval g' /\
      spawnInterval g' < simulatedTime (fs ++ [(time, rnd)]) w).
Proof.
  split.
  - intros time rnd w g g'.
    pose proof (loop_obstacles_length time rnd w) as L. fold g g' in L.
    destruct (loop_count time rnd w) as [[E _] | (E & T & _)];
      fold g g' in E; [left | right; fold g' in T];
      rewrite E in L; repeat split; auto.
    + replace (blocksSpawned g - blocksSpawned g)%Z with 0%Z in L by lia.
      cbn in L. lia.
    + replace (blocksSpawned g + 1 - blocksSpawned g)%Z with 1%Z in L by lia.
      cbn in L. lia.
  - intros fs time rnd w Ht Hc Hs g'.
    set (w1 := runFrames fs w) in *.
    destruct (loop_count time rnd w1) as [[E _] | (_ & _ & Ha & Hlt)];
      [lia |].
    fold g' in Hlt.
    destruct (loop_clock time rnd w1 Ha) as [(_ & _ & Hi & _) _].
    cbv zeta in Hi. fold g' in Hi.
    split.
    + rewrite Hi. apply interval_ge.
    + rewrite simulatedTime_app. fold w1. cbn [simulatedTime].
      pose proof (runFrames_timer fs w Hc) as Hacc. fold w1 in Hacc.
      rewrite Hacc, Ht in Hlt. lra.
Qed.

(** ** A steady run from the start *)

(** A simulated frame with no obstacle in the array and no spawn leaves
    the array empty and the run flags as they were. *)
Lemma frame_quiet (time dt : Q) (rnd : SpawnDraws) (w : World) :
  let g := game w in
  let g' := game (frame time dt rnd w) in
  obstacles g = [] ->
  (spawnTimer g + dt >? spawnInterval g') = false ->
  obstacles g' = [] /\ running g' = running g /\ paused g' = paused g /\
  gameOver g' = gameOver g /\ lastTime g' = lastTime g.
Proof.
  cbv zeta. intros Hempty.
  destruct (frame_curve time dt rnd w) as (_ & _ & -> & _). cbv zeta.
  destruct (frame_curve time dt rnd w) as (-> & _).
  unfold frame.
  set (w1 := scoreDifficulty dt w).
  set (w2 := laneInterpolation dt w1).
  set (w3 := spawnObstacles dt rnd w2).
  pose proof (obstaclesPass_flags time dt w3) as K3.
  pose proof (obstaclesPass_keeps time dt w3) as K3'.
  pose proof (spawnObstacles_timer dt rnd w2) as K2.
  pose proof (spawnObstacles_keeps dt rnd w2) as K2'.
  pose proof (laneInterpolation_keeps dt w1) as K1.
  pose proof (scoreDifficulty_fields dt w) as K0.
  pose proof (scoreDifficulty_keeps dt w) as K0'.
  cbv zeta in K3, K3', K2, K2', K1, K0, K0'.
  fold w1 in K0, K0'. fold w2 in K1, K2, K2'. fold w3 in K2, K2'.
  destruct K1 as (R1 & P1 & G1 & L1 & _ & _ & _ & _ & _ & _ & E1 & E2 & _ & _
                  & O1 & _).
  destruct K0 as (E7 & _ & E4 & _).
  destruct K0' as (R0 & P0 & G0 & L0 & _ & _ & _ & _ & _ & E5 & _ & O0 & _).
  destruct K2' as (R2 & P2 & G2 & L2 & _).
  destruct K3' as (P3 & L3 & _).
  rewrite E1, E2, E4, E5, E7 in K2.
  destruct K2 as [_ K2]. intros Hc. destruct (K2 Hc) as (_ & _ & O2).
  rewrite O1, O0, Hempty in O2. rewrite O2 in K3. cbn in K3.
  destruct K3 as (O3 & _ & K3). destruct (K3 eq_refl) as (G3 & R3 & _).
  repeat split; congruence.
Qed.

Lemma loop_quiet (time : Q) (rnd : SpawnDraws) (w : World) :
  let g := game w in
  let g' := game (loop time rnd w) in
  active g = true ->
  obstacles g = [] ->
  (spawnTimer g + frameDt time g >? spawnInterval g') = false ->
  active g' = true /\ obstacles g' = [] /\ lastTime g' = time.
Proof.
  cbv zeta. intros Ha Hempty. rewrite (loop_active time rnd w Ha). intros Hc.
  destruct (frame_quiet time (frameDt time (game w)) rnd (set_lastTime time w)
              Hempty Hc) as (O & R & P & G & L).
  unfold active in *. rewrite O, R, P, G, L. auto.
Qed.

Lemma inject_nat_succ (k : nat) :
  inject_Z (Z.of_nat (S k)) == inject_Z (Z.of_nat k) + 1.
Proof. rewrite Nat2Z.inj_succ, <- Z.add_1_r, inject_Z_plus. reflexivity. Qed.

Lemma inject_nat_bounds (k n : nat) :
  (k <= n)%nat ->
  0 <= inject_Z (Z.of_nat k) /\
  inject_Z (Z.of_nat k) <= inject_Z (Z.of_nat n).
Proof.
  intros H. split.
  - change 0 with (inject_Z 0). rewrite <- Zle_Qle. lia.
  - rewrite <- Zle_Qle. lia.
Qed.

Lemma steadyFrames_succ (now : Q) (rnd : nat -> SpawnDraws) (n : nat) :
  steadyFrames now rnd (S n)
  = steadyFrames now rnd n
    ++ [(now + 16 * inject_Z (Z.of_nat (S n)), rnd (S n))].
Proof. unfold steadyFrames. rewrite seq_S, map_app. reflexivity. Qed.

(** The delta of a frame 16 ms after the previous one. *)
Lemma frameDt_steady (now : Q) (k : nat) (g : GameState) :
  lastTime g == now + 16 * inject_Z (Z.of_nat k) ->
  frameDt (now + 16 * inject_Z (Z.of_nat (S k))) g == 0.016.
Proof.
  intros Hl. unfold frameDt, Math_min.
  assert (E : (now + 16 * inject_Z (Z.of_nat (S k)) - lastTime g) / 1000
              == 0.016).
  { rewrite Hl, inject_nat_succ. field. }
  rewrite Q.min_l; [exact E | rewrite E; lra].
Qed.

(** The state of the first 71 frames of a steady run: nothing has been
    spawned yet. *)
Lemma steady_run_before_spawn (now : Q) (rnd : nat -> SpawnDraws)
    (w0 : World) (k : nat) :
  (k <= 71)%nat ->
  let w := runFrames (steadyFrames now rnd k) (startGame now w0) in
  active (game w) = true /\ obstacles (game w) = [] /\
  lastTime (game w) == now + 16 * inject_Z (Z.of_nat k) /\
  spawnTimer (game w) == 0.016 * inject_Z (Z.of_nat k) /\
  difficulty (game w) == 1 + 0.00048 * inject_Z (Z.of_nat k) /\
  blocksSpawned (game w) = 0%Z.
Proof.
  cbv zeta. induction k as [| k IH]; intros Hk.
  - cbn. repeat split; try reflexivity; ring.
  - rewrite steadyFrames_succ, runFrames_app. cbn [runFrames].
    destruct IH as (Ha & Ho & Hl & Ht & Hd & Hb); [lia |].
    set (w := runFrames (steadyFrames now rnd k) (startGame now w0)) in *.
    set (time := now + 16 * inject_Z (Z.of_nat (S k))).
    pose proof (frameDt_steady now k (game w) Hl) as Hdt. fold time in Hdt.
    destruct (inject_nat_bounds k 70) as [Hk0 Hk70]; [lia |].
    change (inject_Z (Z.of_nat 70)) with 70 in Hk70.
    destruct (loop_clock time (rnd (S k)) w Ha) as [(Ed & _ & Ei & _) [_ Hn]].
    cbv zeta in Ed, Ei, Hn.
    assert (Hc : (spawnTimer (game w) + frameDt time (game w)
                  >? spawnInterval (game (loop time (rnd (S k)) w))) = false).
    { apply Qgtb_le. rewrite Ei, Ed.
      eapply Qle_trans; [| apply Q.le_max_r]. rewrite Ht, Hd, Hdt. lra. }
    destruct (Hn Hc) as [Et Eb].
    destruct (loop_quiet time (rnd (S k)) w Ha Ho Hc) as (Ha' & Ho' & Hl').
    repeat split; auto.
    + rewrite Hl'. reflexivity.
    + rewrite Et, Ht, Hdt, inject_nat_succ. ring.
    + rewrite Ed, Hd, Hdt, inject_nat_succ. ring.
    + congruence.
Qed.

Lemma steadyFrames_app (now : Q) (rnd : nat -> SpawnDraws) (n m : nat) :
  steadyFrames now rnd (n + m)
  = steadyFrames now rnd n
    ++ map (fun k => (now + 16 * inject_Z (Z.of_nat k), rnd k))
         (seq (S n) m).
Proof. unfold steadyFrames. rewrite seq_app, map_app. reflexivity. Qed.

(** Frame 72 of a steady run spawns. *)
Lemma steady_run_spawn (now : Q) (rnd : nat -> SpawnDraws) (w0 : World) :
  let w := runFrames (steadyFrames now rnd 72) (startGame now w0) in
  spawnTimer (game w) = 0 /\ blocksSpawned (game w) = 1%Z.
Proof.
  cbv zeta. rewrite steadyFrames_succ, runFrames_app. cbn [runFrames].
  destruct (steady_run_before_spawn now rnd w0 71 (le_n _))
    as (Ha & Ho & Hl & Ht & Hd & Hb).
  set (w := runFrames (steadyFrames now rnd 71) (startGame now w0)) in *.
  pose proof (frameDt_steady now 71 (game w) Hl) as Hdt.
  set (time := now + 16 * inject_Z (Z.of_nat 72)) in *.
  destruct (loop_clock time (rnd 72%nat) w Ha) as [(Ed & _ & Ei & _) [Hy _]].
  cbv zeta in Ed, Ei, Hy.
  assert (E71 : inject_Z (Z.of_nat 71) == 71) by reflexivity.
  rewrite E71 in Ht, Hd.
  destruct Hy as [Et Eb].
  { apply Qgtb_gt. rewrite Ei, Ed. unfold Math_max.
    apply Q.max_lub_lt; rewrite Ht, ?Hd, Hdt; lra. }
  split; [exact Et | rewrite Eb, Hb; reflexivity].
Qed.


(** ** The falling integrator *)

Lemma stepObstacle_falling (time dt forward : Q) (i : nat) (o : Obstacle) :
  falling o = true -> landed o = false ->
  let p := position (mesh o) in
  let vy' := vy o + -25 * dt in
  let y' := vec_y p + vy' * dt in
  let rest := 0.5 + vec_y (scale (mesh o)) / 2 in
  let o' := stepObstacle time dt forward i o in
  (y' <= rest ->
   vec_y (position (mesh o')) = rest /\ landed o' = true /\
   falling o' = false /\ vy o' = 0) /\
  (rest < y' ->
   vec_y (position (mesh o')) = y' /\ vy o' = vy' /\
   landed o' = false /\ falling o' = true) /\
  scale (mesh o') = scale (mesh o) /\ geometry (mesh o') = geometry (mesh o).
Proof.
  intros Hf Hl. cbv zeta. unfold stepObstacle. rewrite Hf, Hl. cbn [andb negb].
  split; [| split].
  - intros H. apply Qleb_le in H. rewrite H. proj. auto.
  - intros H. apply Qleb_gt in H. rewrite H. proj. auto.
  - destruct (_ <=? _); proj; auto.
Qed.

(** Every spawned obstacle has unit scale: its size is in the geometry. *)
Lemma spawnedObstacle_scale (oid : Z) (rnd : SpawnDraws) (g : GameState) :
  scale (mesh (spawnedObstacle oid rnd g)) = mkVector3 1 1 1 /\
  falling (spawnedObstacle oid rnd g) = true /\
  landed (spawnedObstacle oid rnd g) = false.
Proof. unfold spawnedObstacle. proj. auto. Qed.

(** The first landing test of any spawned obstacle is against
    [0.5 + 1 / 2], whatever height its geometry has. *)
Lemma spawnedObstacle_rest (oid : Z) (rnd : SpawnDraws) (g : GameState)
    (time dt forward : Q) (i : nat) :
  let o := spawnedObstacle oid rnd g in
  let y' := vec_y (position (mesh o)) + (vy o + -25 * dt) * dt in
  let o' := stepObstacle time dt forward i o in
  (y' <= 0.5 + 1 / 2 ->
   vec_y (position (mesh o')) = 0.5 + 1 / 2 /\ landed o' = true) /\
  (0.5 + 1 / 2 < y' ->
   vec_y (position (mesh o')) = y' /\ landed o' = false).
Proof.
  cbv zeta.
  destruct (spawnedObstacle_scale oid rnd g) as (Hs & Hf & Hl).
  destruct (stepObstacle_falling time dt forward i _ Hf Hl) as (Hy & Hn & _).
  cbv zeta in Hy, Hn. rewrite Hs in Hy, Hn. proj.
  split; intros H.
  - destruct (Hy H) as (E1 & E2 & _). auto.
  - destruct (Hn H) as (E1 & _ & E2 & _). auto.
Qed.

(** ** Lane change requests *)

Lemma LANES_at_defined (i : Z) :
  (0 <= i <= 2)%Z -> nth_error LANES (Z.to_nat i) = Some (LANES_at i).
Proof.
  intros H. assert (C : i = 0%Z \/ i = 1%Z \/ i = 2%Z) by lia.
  destruct C as [-> | [-> | ->]]; reflexivity.
Qed.

(** C2, as the code has it. A move request is ignored when the game is
    over or when the resulting lane index would leave [0, 2]; in every
    other state, also before the first start and while paused, it adds
    the direction to the lane index, takes the player's present
    position as the start of the interpolation, the fixed position of
    the new lane as its target, puts the elapsed time back to 0, and
    leaves the rest of the game as it was. *)
Theorem C2_move_request :
  forall (delta : Z) (w : World),
    let g := game w in
    let newIndex := (laneIndex g + delta)%Z in
    let w' := tryMoveLane delta w in
    (gameOver g = true \/ (newIndex < 0)%Z \/ (2 < newIndex)%Z -> w' = w) /\
    (gameOver g = false -> (0 <= newIndex <= 2)%Z ->
     laneIndex (game w') = newIndex /\
     laneStartX (game w') = vec_x (player w) /\
     laneTargetX (game w') = LANES_at newIndex /\
     nth_error LANES (Z.to_nat newIndex) = Some (LANES_at newIndex) /\
     laneT (game w') = 0 /\
     phase (game w') = phase g /\ player w' = player w /\
     obstacles (game w') = obstacles g /\ score (game w') = score g).
Proof.
  intros delta w g newIndex w'. subst w'. unfold tryMoveLane. fold g.
  fold newIndex. split.
  - intros [H | [H | H]].
    + rewrite H. reflexivity.
    + destruct (gameOver g); [reflexivity |].
      apply Z.ltb_lt in H. rewrite H. reflexivity.
    + destruct (gameOver g); [reflexivity |].
      apply Z.gtb_lt in H. rewrite H, orb_true_r. reflexivity.
  - intros Hg [H0 H2]. rewrite Hg.
    assert (E0 : (newIndex <? 0)%Z = false) by (apply Z.ltb_ge; lia).
    assert (E2 : (newIndex >? 2)%Z = false).
    { rewrite Z.gtb_ltb. apply Z.ltb_ge. lia. }
    rewrite E0, E2. cbn [orb]. proj.
    repeat split; try reflexivity.
    + apply LANES_at_defined. lia.
    + unfold phase. proj. rewrite Hg. reflexivity.
Qed.

(** ** Game over and the top score *)

Lemma Qgtb_comp_true (a a' b b' : Q) :
  a == a' -> b == b' -> (a >? b) = (a' >? b').
Proof. intros Ha Hb. unfold Qgtb. apply Qltb_comp; assumption. Qed.

(** C3, as the code has it. At the transition into game over the score
    itself is compared with the top score; when it is greater, the top
    score becomes the score, unrounded, and its floor is written to the
    store once and shown; otherwise nothing is written.  A run ending at
    120.7 against a top score of 100 writes 120, once.  The obstacle loop
    writes at most once in a frame, and once the game is over the frames
    write nothing more. *)
Theorem C3_top_score_at_game_over :
  (forall (w : World),
      let g := game w in
      let w' := endGame w in
      gameOver (game w') = true /\ running (game w') = false /\
      (topScore g < score g ->
       topScore (game w') = score g /\
       storage w' = Math_floor (score g) :: storage w /\
       ui_topScore w' = Math_floor (score g)) /\
      (score g <= topScore g ->
       topScore (game w') = topScore g /\ storage w' = storage w /\
       ui_topScore w' = ui_topScore w)) /\
  (forall (w : World),
      score (game w) == 120.7 -> topScore (game w) == 100 ->
      storage (endGame w) = 120%Z :: storage w /\
      ui_topScore (endGame w) = 120%Z) /\
  (forall (time dt : Q) (w : World),
      storage (obstaclesPass time dt w) = storage w \/
      storage (obstaclesPass time dt w)
      = Math_floor (score (game w)) :: storage w) /\
  (forall (time : Q) (rnd : SpawnDraws) (w : World),
      loop time rnd (endGame w) = endGame w).
Proof.
  split; [| split; [| split]].
  - intros w g w'. subst w'. unfold endGame. fold g. proj.
    split; [reflexivity | split; [reflexivity |]].
    split; intros H.
    + apply Qgtb_gt in H. rewrite H. auto.
    + apply Qgtb_le in H. rewrite H. auto.
  - intros w Hs Ht. unfold endGame. proj.
    rewrite (Qgtb_comp_true _ _ _ _ Hs Ht).
    change (120.7 >? 100) with true. cbn match.
    unfold Math_floor. rewrite Hs. split; reflexivity.
  - intros time dt w. unfold obstaclesPass.
    destruct (updateObstacles _ _ _ _ _ _) as [os hit].
    destruct hit; [| left; reflexivity].
    unfold endGame, set_obstacles. proj.
    destruct (_ >? _); [right | left]; reflexivity.
  - intros time rnd w. apply loop_stopped. left. reflexivity.
Qed.

(** * Beyond the claims: input, invariants of a session, ambience *)

(** ** Comparisons once more, free of the frame's parameters *)

Lemma Qltb_true (a b : Q) : (a <? b) = true <-> a < b.
Proof using.
  unfold Qltb. rewrite Qlt_alt. destruct (a ?= b); split; congruence.
Qed.

Lemma Qltb_false (a b : Q) : (a <? b) = false <-> b <= a.
Proof using.
  rewrite <- not_true_iff_false, Qltb_true. split.
  - apply Qnot_lt_le.
  - apply Qle_not_lt.
Qed.

Lemma Qgtb_true (a b : Q) : (a >? b) = true <-> b < a.
Proof using. apply Qltb_true. Qed.

Lemma Qgtb_false (a b : Q) : (a >? b) = false <-> a <= b.
Proof using. apply Qltb_false. Qed.

(** ** How an invariant is carried through the handlers *)

Lemma loop_preserves (P : World -> Prop) (time : Q) (rnd : SpawnDraws)
    (w : World) :
  (forall w', P w' -> P (set_lastTime time w')) ->
  (forall w', P w' -> P (scoreDifficulty (frameDt time (game w)) w')) ->
  (forall w', P w' -> P (laneInterpolation (frameDt time (game w)) w')) ->
  (forall w', P w' -> P (spawnObstacles (frameDt time (game w)) rnd w')) ->
  (forall w', paused (game w') = false -> P w' ->
              P (obstaclesPass time (frameDt time (game w)) w')) ->
  P w -> P (loop time rnd w).
Proof.
  intros H0 H1 H2 H3 H4 HP. unfold loop.
  destruct (negb (running (game w)) || paused (game w)) eqn:Hrp;
    [exact HP |].
  destruct (gameOver (game w)); [apply H0, HP |].
  unfold frame. apply H4; [| auto].
  apply orb_false_iff in Hrp. destruct Hrp as [_ Hp].
  set (dt := frameDt time (game w)).
  destruct (spawnObstacles_keeps dt rnd
              (laneInterpolation dt (scoreDifficulty dt (set_lastTime time w))))
    as (_ & -> & _).
  destruct (laneInterpolation_keeps dt
              (scoreDifficulty dt (set_lastTime time w))) as (_ & -> & _).
  destruct (scoreDifficulty_keeps dt (set_lastTime time w)) as (_ & -> & _).
  exact Hp.
Qed.

Lemma onKeyDown_preserves (P : World -> Prop) :
  (forall d w, P w -> P (tryMoveLane d w)) ->
  (forall now w, P w -> P (togglePause now w)) ->
  (forall now w, P w -> P (startGame now w)) ->
  forall now code w, P w -> P (onKeyDown now code w).
Proof.
  intros Hm Hp Hs now code w HP. unfold onKeyDown, handleStartOrRestart.
  repeat match goal with
         | |- context [if ?b then _ else _] => destruct b
         end; auto.
Qed.

Lemma handle_preserves (C : Event -> World -> Prop) (P : World -> Prop) :
  (forall time rnd w, C (Frame time rnd) w -> P w -> P (loop time rnd w)) ->
  (forall d w, P w -> P (tryMoveLane d w)) ->
  (forall now w, P w -> P (togglePause now w)) ->
  (forall now w, P w -> P (startGame now w)) ->
  forall e s, C e (snd s) -> P (snd s) -> P (snd (handle e s)).
Proof.
  intros Hl Hm Hp Hs e [ts w] HC HP. cbn [snd] in *.
  destruct e as [time rnd | now code | st_now now cx cy | cx cy | now];
    cbn [handle fst snd].
  - auto.
  - apply onKeyDown_preserves; auto.
  - unfold onTouchStart, handleStartOrRestart. cbn [snd].
    destruct (negb (running (game w)) || gameOver (game w)); auto.
  - unfold onTouchEnd.
    destruct (_ && _); [destruct (_ <? 0) |]; auto.
  - unfold onClick. destruct (_ && _); auto.
Qed.

Lemma handleAll_preserves (C : Event -> World -> Prop) (P : World -> Prop) :
  (forall time rnd w, C (Frame time rnd) w -> P w -> P (loop time rnd w)) ->
  (forall d w, P w -> P (tryMoveLane d w)) ->
  (forall now w, P w -> P (togglePause now w)) ->
  (forall now w, P w -> P (startGame now w)) ->
  forall es s, allowed C es s -> P (snd s) -> P (snd (handleAll es s)).
Proof.
  intros Hl Hm Hp Hs es.
  induction es as [| e es IH]; intros s Ha HP; cbn [handleAll allowed] in *.
  - exact HP.
  - destruct Ha as [HC Ha]. apply IH; [exact Ha |].
    apply (handle_preserves C P); auto.
Qed.

Lemma allowed_always (es : list Event) :
  forall s, allowed (fun _ _ => True) es s.
Proof. induction es as [| e es IH]; intros s; cbn; auto. Qed.

Ltac splits :=
  repeat match goal with
         | |- ?G =>
             let G' := eval hnf in G in
             match G' with
             | _ /\ _ => split
             | _ <-> _ => split
             end
         end;
  try match goal with |- _ = _ => reflexivity end.

Ltac cases :=
  repeat match goal with
         | |- context [if ?b then _ else _] => destruct b eqn:?; proj
         | |- context [let (_, _) := ?p in _] => destruct p; proj
         end.

(** ** The flags encode one phase *)

Lemma loop_flags (time : Q) (rnd : SpawnDraws) (w : World) :
  flagsConsistent (game w) -> flagsConsistent (game (loop time rnd w)).
Proof.
  apply (loop_preserves (fun w => flagsConsistent (game w))).
  - auto.
  - intros w'. destruct (scoreDifficulty_keeps (frameDt time (game w)) w')
      as (R & P & G & _). unfold flagsConsistent. now rewrite R, P, G.
  - intros w'. destruct (laneInterpolation_keeps (frameDt time (game w)) w')
      as (R & P & G & _). unfold flagsConsistent. now rewrite R, P, G.
  - intros w'. destruct (spawnObstacles_keeps (frameDt time (game w)) rnd w')
      as (R & P & G & _). unfold flagsConsistent. now rewrite R, P, G.
  - intros w' Hp [H1 H2].
    destruct (obstaclesPass_keeps time (frameDt time (game w)) w')
      as (P & _).
    destruct (obstaclesPass_flags time (frameDt time (game w)) w')
      as (_ & Hy & Hn).
    unfold flagsConsistent. rewrite P, Hp.
    destruct (snd (updateObstacles _ _ _ _ _ _)).
    + destruct (Hy eq_refl) as [-> ->]. split; [discriminate | reflexivity].
    + destruct (Hn eq_refl) as (-> & -> & _). split; [discriminate | exact H2].
Qed.

Lemma tryMoveLane_flags (d : Z) (w : World) :
  flagsConsistent (game w) -> flagsConsistent (game (tryMoveLane d w)).
Proof. unfold tryMoveLane, flagsConsistent. cases; intuition congruence. Qed.

Lemma togglePause_flags (now : Q) (w : World) :
  flagsConsistent (game w) -> flagsConsistent (game (togglePause now w)).
Proof.
  unfold togglePause.
  destruct (negb (running (game w)) || gameOver (game w)) eqn:E; [auto |].
  apply orb_false_iff in E. destruct E as [Hr Hg].
  apply negb_false_iff in Hr. intros _. unfold flagsConsistent. proj.
  rewrite Hr, Hg. split; [reflexivity | discriminate].
Qed.

Lemma startGame_flags (now : Q) (w : World) :
  flagsConsistent (game (startGame now w)).
Proof. split; cbn; [reflexivity | discriminate]. Qed.

(** ** The lane fields *)

Lemma loop_lane (time : Q) (rnd : SpawnDraws) (w : World) :
  laneIndex (game (loop time rnd w)) = laneIndex (game w) /\
  laneTargetX (game (loop time rnd w)) = laneTargetX (game w) /\
  laneStartX (game (loop time rnd w)) = laneStartX (game w) /\
  laneDuration (game (loop time rnd w)) = laneDuration (game w).
Proof.
  unfold loop.
  destruct (negb (running (game w)) || paused (game w)); [auto |].
  destruct (gameOver (game w)); [auto |].
  destruct (frame_lane time (frameDt time (game w)) rnd (set_lastTime time w))
    as (_ & _ & -> & -> & -> & ->).
  auto.
Qed.

Lemma tryMoveLane_lane (d : Z) (w : World) :
  laneConsistent (game w) -> laneConsistent (game (tryMoveLane d w)).
Proof.
  unfold tryMoveLane. intros (H1 & H2 & H3).
  destruct (gameOver (game w)); [exact (conj H1 (conj H2 H3)) |].
  destruct (_ <? 0)%Z eqn:E0; [exact (conj H1 (conj H2 H3)) |].
  destruct (_ >? 2)%Z eqn:E2; [exact (conj H1 (conj H2 H3)) |].
  cbn [orb]. unfold laneConsistent. proj.
  apply Z.ltb_ge in E0. rewrite Z.gtb_ltb in E2. apply Z.ltb_ge in E2.
  splits; auto; lia.
Qed.

Lemma togglePause_lane (now : Q) (w : World) :
  laneConsistent (game w) -> laneConsistent (game (togglePause now w)).
Proof. unfold togglePause, laneConsistent. cases; intuition congruence. Qed.

Lemma startGame_lane (now : Q) (w : World) :
  laneDuration (game w) = 0.1 -> laneConsistent (game (startGame now w)).
Proof.
  intros H. unfold laneConsistent. cbn. splits; auto; discriminate.
Qed.

Lemma session_flags (storedTop : Z) (es : list Event) :
  flagsConsistent
    (game (snd (handleAll es (initialTouch, initialWorld storedTop)))).
Proof.
  apply (handleAll_preserves (fun _ _ => True)
           (fun w => flagsConsistent (game w))).
  - intros time rnd w _. apply loop_flags.
  - apply tryMoveLane_flags.
  - apply togglePause_flags.
  - intros now w _. apply startGame_flags.
  - apply allowed_always.
  - split; cbn; discriminate.
Qed.

(** X1. In every state a session can reach, the three flags encode one
    phase: a paused game is running and not over, a finished game is not
    running; so the game is paused exactly in phase Paused and simulated
    exactly in phase Running. *)
Theorem session_flags_encode_phase :
  forall (storedTop : Z) (es : list Event),
    let g := game (snd (handleAll es (initialTouch, initialWorld storedTop))) in
    flagsConsistent g /\
    (paused g = true <-> phase g = Paused) /\
    (gameOver g = true <-> phase g = GameOver) /\
    (active g = true <-> phase g = Running).
Proof.
  intros storedTop es g.
  pose proof (session_flags storedTop es) as H. fold g in H.
  split; [exact H |]. destruct H as [H1 H2].
  unfold phase, active.
  destruct (paused g), (running g), (gameOver g); cbn;
    splits; intros; try discriminate; try reflexivity;
    try (specialize (H1 eq_refl); discriminate);
    try (specialize (H2 eq_refl); discriminate).
Qed.

(** X2. In every state a session can reach, the lane index is 0, 1 or 2,
    the interpolation target is that lane's entry of [LANES], and the
    duration of a lane change is 0.1 s. *)
Theorem session_lane_in_table :
  forall (storedTop : Z) (es : list Event),
    let g := game (snd (handleAll es (initialTouch, initialWorld storedTop))) in
    (0 <= laneIndex g <= 2)%Z /\
    nth_error LANES (Z.to_nat (laneIndex g)) = Some (laneTargetX g) /\
    laneDuration g = 0.1.
Proof.
  intros storedTop es g.
  assert (H : laneConsistent g).
  { subst g.
    apply (handleAll_preserves (fun _ _ => True)
             (fun w => laneConsistent (game w))).
    - intros time rnd w _ (H1 & H2 & H3). unfold laneConsistent.
      destruct (loop_lane time rnd w) as (-> & -> & _ & ->). auto.
    - apply tryMoveLane_lane.
    - apply togglePause_lane.
    - intros now w (_ & _ & H3). apply startGame_lane, H3.
    - apply allowed_always.
    - splits; cbn; lia. }
  destruct H as (H1 & H2 & H3). splits; try tauto.
  rewrite H2. apply LANES_at_defined. exact H1.
Qed.

(** ** The HUD *)

Lemma loop_hud (time : Q) (rnd : SpawnDraws) (w : World) :
  hudConsistent w -> hudConsistent (loop time rnd w).
Proof.
  apply (loop_preserves hudConsistent).
  - auto.
  - intros w'. split_world w'. unfold scoreDifficulty, hudConsistent. proj.
    intuition.
  - intros w'. split_world w'.
    unfold laneInterpolation, set_laneT, hudConsistent. proj.
    cases; intuition.
  - intros w'. split_world w'.
    unfold spawnObstacles, spawnObstacle, set_spawnTimer, hudConsistent. proj.
    cases; intuition.
  - intros w'. split_world w'.
    unfold obstaclesPass, endGame, set_obstacles, hudConsistent. proj.
    intros ->. cases; intuition.
Qed.

Lemma tryMoveLane_hud (d : Z) (w : World) :
  hudConsistent w -> hudConsistent (tryMoveLane d w).
Proof.
  split_world w. unfold tryMoveLane, hudConsistent. proj. cases; intuition.
Qed.

Lemma togglePause_hud (now : Q) (w : World) :
  hudConsistent w -> hudConsistent (togglePause now w).
Proof.
  split_world w. unfold togglePause, hudConsistent. proj. cases; intuition.
Qed.

Lemma startGame_hud (now : Q) (w : World) :
  hudConsistent w -> hudConsistent (startGame now w).
Proof.
  split_world w. unfold hudConsistent. cbn. intuition.
Qed.


(** ** Lane colours *)

Lemma colour_step (b : Z) :
  (0 <= b)%Z ->
  ((b + 1) mod 10 <> 0)%Z ->
  ((b + 1) / 10 = b / 10)%Z.
Proof using. intros H0 H1. Z.div_mod_to_equations. lia. Qed.

Lemma ToInt32_small (n : Z) : (0 <= n < 2 ^ 31)%Z -> ToInt32 n = n.
Proof using.
  intros H. unfold ToInt32. rewrite Z.mod_small; lia.
Qed.

Lemma spawnObstacles_colour (dt : Q) (rnd : SpawnDraws) (w : World) :
  colourFollowsSpawns w -> colourFollowsSpawns (spawnObstacles dt rnd w).
Proof.
  split_world w.
  unfold spawnObstacles, spawnObstacle, set_spawnTimer, colourFollowsSpawns.
  proj. intros [H0 Hc].
  destruct (_ >? _); proj; [| auto].
  destruct (_ =? 0)%Z eqn:E; proj.
  - split; [lia |]. intros Hb. unfold LANE_COLORS_length.
    rewrite ToInt32_small by (split; [apply Z.div_pos | apply Z.div_lt_upper_bound]; lia).
    assert (Hq : (0 <= (blocksSpawned0 + 1) / 10)%Z) by (apply Z.div_pos; lia).
    rewrite !Z.rem_mod_nonneg by
      (try lia; try (apply Z.mod_pos_bound; lia);
       try (rewrite Z.rem_mod_nonneg by lia; apply Z.mod_pos_bound; lia)).
    rewrite Z.mod_mod by lia. reflexivity.
  - apply Z.eqb_neq in E. rewrite Z.rem_mod_nonneg in E by lia.
    split; [lia |]. intros Hb.
    rewrite colour_step by assumption. apply Hc. lia.
Qed.

Lemma loop_colour (time : Q) (rnd : SpawnDraws) (w : World) :
  colourFollowsSpawns w -> colourFollowsSpawns (loop time rnd w).
Proof.
  apply (loop_preserves colourFollowsSpawns).
  - auto.
  - intros w'. split_world w'. unfold scoreDifficulty, colourFollowsSpawns.
    proj. auto.
  - intros w'. split_world w'.
    unfold laneInterpolation, set_laneT, colourFollowsSpawns. proj.
    cases; auto.
  - intros w'. apply spawnObstacles_colour.
  - intros w' _. split_world w'.
    unfold obstaclesPass, endGame, set_obstacles, colourFollowsSpawns. proj.
    cases; auto.
Qed.


(** The bound of X4 is sharp: the spawn that brings the count to
    [21474836480] computes the colour index [-3]. *)
Lemma lane_colour_wraps (rnd : SpawnDraws) (w : World) :
  blocksSpawned (game w) = 21474836479%Z ->
  blocksSpawned (game (spawnObstacle rnd w)) = 21474836480%Z /\
  ui_laneColorIndex (spawnObstacle rnd w) = (-3)%Z.
Proof using.
  intros H. split_world w. unfold spawnObstacle. proj. cbn in H. subst.
  split; reflexivity.
Qed.

(** ** The stored top score *)

Lemma floor_above (v : Z) (x : Q) : inject_Z v <= x -> (v <= Math_floor x)%Z.
Proof using.
  intros H. unfold Math_floor. rewrite <- (Qfloor_Z v).
  apply Qfloor_resp_le. exact H.
Qed.

Lemma endGame_store (storedTop : Z) (w : World) :
  storeConsistent storedTop w -> storeConsistent storedTop (endGame w).
Proof.
  split_world w. unfold endGame, storeConsistent. proj.
  intros (Ht & Hall & Hsorted).
  destruct (_ >? _) eqn:E; [| auto].
  apply Qgtb_true in E.
  split; [lra |]. split.
  - constructor.
    + split; [apply floor_above; lra | apply Qfloor_le].
    + eapply Forall_impl; [| exact Hall]. cbn. intros v [H1 H2].
      split; [exact H1 | lra].
  - constructor; [exact Hsorted |].
    eapply Forall_impl; [| exact Hall]. cbn. intros v [H1 H2].
    apply Z.le_ge, floor_above. lra.
Qed.

Lemma loop_store (storedTop : Z) (time : Q) (rnd : SpawnDraws) (w : World) :
  storeConsistent storedTop w -> storeConsistent storedTop (loop time rnd w).
Proof.
  apply (loop_preserves (storeConsistent storedTop)).
  - auto.
  - intros w'. split_world w'. unfold scoreDifficulty, storeConsistent.
    proj. auto.
  - intros w'. split_world w'.
    unfold laneInterpolation, set_laneT, storeConsistent. proj.
    cases; auto.
  - intros w'. split_world w'.
    unfold spawnObstacles, spawnObstacle, set_spawnTimer, storeConsistent.
    proj. cases; auto.
  - intros w' _ H. unfold obstaclesPass.
    destruct (updateObstacles _ _ _ _ _ _) as [os hit].
    assert (H' : storeConsistent storedTop (set_obstacles os w')) by exact H.
    destruct hit; [apply endGame_store |]; exact H'.
Qed.

Lemma session_store (storedTop : Z) (es : list Event) :
  storeConsistent storedTop
    (snd (handleAll es (initialTouch, initialWorld storedTop))).
Proof.
  apply (handleAll_preserves (fun _ _ => True) (storeConsistent storedTop)).
  - intros time rnd w _. apply loop_store.
  - intros d w. split_world w. unfold tryMoveLane, storeConsistent.
    proj. cases; auto.
  - intros now w. split_world w. unfold togglePause, storeConsistent.
    proj. cases; auto.
  - intros now w. split_world w. unfold storeConsistent. cbn. auto.
  - apply allowed_always.
  - split; [cbn; lra |]. split; constructor.
Qed.


(** ** The obstacles of the array *)

Lemma floor_unit3 (r : Q) : inUnit r -> (0 <= Math_floor (r * 3) <= 2)%Z.
Proof using.
  intros [H0 H1]. split.
  - apply floor_above. change (inject_Z 0) with 0. lra.
  - assert (H : (Math_floor (r * 3) < 3)%Z).
    { rewrite Zlt_Qlt. change (inject_Z 3) with 3.
      eapply Qle_lt_trans; [apply Qfloor_le |]. lra. }
    lia.
Qed.

Lemma spawnedObstacle_ok (oid : Z) (rnd : SpawnDraws) (g : GameState) :
  drawsInUnit rnd -> obstacleOK (spawnedObstacle oid rnd g).
Proof using.
  intros (Hl & _ & _ & _ & _ & Hz).
  unfold obstacleOK, spawnedObstacle. proj.
  splits; try reflexivity; try discriminate.
  - apply floor_unit3, Hl.
  - apply floor_unit3, Hl.
  - destruct Hz. lra.
Qed.

Lemma stepObstacle_ok (time dt forward : Q) (i : nat) (o : Obstacle) :
  obstacleOK o ->
  vec_z (position (mesh (stepObstacle time dt forward i o))) <= 10 ->
  obstacleOK (stepObstacle time dt forward i o).
Proof.
  destruct o as [[oid pos sc rot geo em] lane f v l].
  unfold obstacleOK, stepObstacle. proj.
  intros (Hs & Hl & Hx & Hz & Hf & Hr). subst sc f. proj.
  destruct l; cbn [negb andb]; proj.
  - intros Hz'. destruct (Hr eq_refl) as [Hy Hv]. splits; auto; lia.
  - destruct (_ <=? _); proj; intros Hz';
      splits; auto; try lia; intros C; discriminate C.
Qed.

Lemma updateObstacles_ok (time dt forward : Q) (p : Vector3)
    (os : list Obstacle) :
  forall i, Forall obstacleOK os ->
            Forall obstacleOK (fst (updateObstacles time dt forward p i os)).
Proof.
  induction os as [| o os IH]; intros i Hall; cbn [updateObstacles].
  - constructor.
  - inversion Hall as [| ? ? Ho Hos]; subst.
    specialize (IH (S i) Hos).
    destruct (updateObstacles time dt forward p (S i) os) as [rest' hit].
    cbn [fst] in IH.
    destruct hit; cbn [fst]; [constructor; assumption |].
    destruct (_ >? 10) eqn:Ez; cbn [fst]; [assumption |].
    apply Qgtb_false in Ez.
    destruct (intersectsCube _ _ _ _ _); cbn [fst];
      constructor; auto using stepObstacle_ok.
Qed.

Lemma loop_obstacles_ok (time : Q) (rnd : SpawnDraws) (w : World) :
  drawsInUnit rnd ->
  Forall obstacleOK (obstacles (game w)) ->
  Forall obstacleOK (obstacles (game (loop time rnd w))).
Proof.
  intros Hd.
  apply (loop_preserves (fun w => Forall obstacleOK (obstacles (game w)))).
  - auto.
  - intros w'. destruct (scoreDifficulty_keeps (frameDt time (game w)) w')
      as (_ & _ & _ & _ & _ & _ & _ & _ & _ & _ & _ & -> & _). auto.
  - intros w'. destruct (laneInterpolation_keeps (frameDt time (game w)) w')
      as (_ & _ & _ & _ & _ & _ & _ & _ & _ & _ & _ & _ & _ & _ & -> & _).
    auto.
  - intros w' H.
    destruct (spawnObstacles_timer (frameDt time (game w)) rnd w') as [Hy Hn].
    destruct (_ >? _).
    + destruct (Hy eq_refl) as (_ & _ & ->).
      apply Forall_app. split; [exact H |].
      constructor; [| constructor]. apply spawnedObstacle_ok, Hd.
    + destruct (Hn eq_refl) as (_ & _ & ->). exact H.
  - intros w' _ H. rewrite obstaclesPass_obstacles.
    apply updateObstacles_ok, H.
Qed.


(** ** The player stays on the road *)

Lemma frameDt_nonneg (time : Q) (g : GameState) :
  lastTime g <= time -> 0 <= frameDt time g.
Proof using.
  intros H. unfold frameDt, Math_min. apply Q.min_glb; [| lra].
  apply Qle_shift_div_l; lra.
Qed.

Lemma lanePosition_start (g : GameState) :
  laneDuration g = 0.1 -> laneT g == 0 -> lanePosition g == laneStartX g.
Proof using.
  intros Hd Ht. unfold lanePosition. rewrite Hd.
  assert (E : Math_min 1 (laneT g / 0.1) == 0).
  { unfold Math_min. rewrite Ht. reflexivity. }
  unfold lerp, smoothstep. rewrite E. ring.
Qed.

Lemma lanePosition_arrived (g : GameState) :
  laneDuration g = 0.1 -> laneDuration g <= laneT g ->
  lanePosition g == laneTargetX g.
Proof using.
  intros Hd Ht. unfold lanePosition. rewrite Hd in *.
  assert (E : Math_min 1 (laneT g / 0.1) == 1).
  { unfold Math_min. apply Q.min_l. apply Qle_shift_div_l; lra. }
  unfold lerp, smoothstep. rewrite E. ring.
Qed.

Lemma laneInterpolation_track (dt : Q) (w : World) :
  onTrack w -> onTrack (laneInterpolation dt w).
Proof.
  intros [Hc _]. split.
  - destruct (laneInterpolation_keeps dt w)
      as (_ & _ & _ & _ & Ei & _ & Et & Ed & _).
    cbv zeta in Ei, Et, Ed. unfold laneConsistent. rewrite Ei, Et, Ed.
    exact Hc.
  - destruct Hc as (_ & _ & Hd).
    destruct (Qlt_le_dec (laneT (game w)) (laneDuration (game w)))
      as [Hlt | Hle].
    + apply Qltb_true in Hlt. split_world w.
      unfold laneInterpolation, lanePosition, smoothstep in *. proj.
      rewrite Hlt. proj. reflexivity.
    + pose proof (lanePosition_arrived (game w) Hd Hle) as E.
      apply Qltb_false in Hle. split_world w.
      unfold laneInterpolation in *. proj. rewrite Hle. proj.
      symmetry. exact E.
Qed.

Lemma loop_track (time : Q) (rnd : SpawnDraws) (w : World) :
  onTrack w -> onTrack (loop time rnd w).
Proof.
  apply (loop_preserves onTrack).
  - auto.
  - intros w'. split_world w'.
    unfold scoreDifficulty, onTrack, laneConsistent, lanePosition. proj. auto.
  - intros w'. apply laneInterpolation_track.
  - intros w'.
    destruct (spawnObstacles_keeps (frameDt time (game w)) rnd w')
      as (_ & _ & _ & _ & Ei & Es & Et & El & Ed & _ & _ & _ & _ & _ & Ep & _).
    unfold onTrack, laneConsistent, lanePosition.
    cbv zeta in Ei, Es, Et, El, Ed, Ep.
    rewrite Ei, Es, Et, El, Ed, Ep. auto.
  - intros w' _.
    destruct (obstaclesPass_keeps time (frameDt time (game w)) w')
      as (_ & _ & Ei & Es & Et & El & Ed & _ & _ & _ & _ & _ & _ & Ep & _).
    unfold onTrack, laneConsistent, lanePosition.
    cbv zeta in Ei, Es, Et, El, Ed, Ep.
    rewrite Ei, Es, Et, El, Ed, Ep. auto.
Qed.

Lemma tryMoveLane_track (d : Z) (w : World) :
  onTrack w -> onTrack (tryMoveLane d w).
Proof.
  intros [Hc Hx]. split; [apply tryMoveLane_lane, Hc |].
  destruct Hc as (_ & _ & Hd).
  unfold tryMoveLane.
  destruct (gameOver (game w)); [exact Hx |].
  destruct (_ || _)%bool; [exact Hx |].
  rewrite lanePosition_start; proj; [reflexivity | exact Hd | reflexivity].
Qed.

Lemma session_track (storedTop : Z) (es : list Event) :
  onTrack (snd (handleAll es (initialTouch, initialWorld storedTop))).
Proof.
  apply (handleAll_preserves (fun _ _ => True) onTrack).
  - intros time rnd w _. apply loop_track.
  - apply tryMoveLane_track.
  - intros now w [Hc Hx]. split; [apply togglePause_lane, Hc |].
    split_world w. unfold togglePause, lanePosition in *. proj.
    cases; exact Hx.
  - intros now w [(_ & _ & Hd) _]. split; [apply startGame_lane, Hd |].
    unfold lanePosition, startGame, resetWorld, updateLaneColors. proj.
    rewrite Hd. reflexivity.
  - apply allowed_always.
  - split; [unfold laneConsistent; cbn; splits; lia | reflexivity].
Qed.

(** X7. At every moment of a session the player's x is the eased
    interpolation between the start and the target of the lane change
    at the elapsed fraction of its duration, also right after a lane
    request, a restart or a pause.  So right after a request the player
    has not jumped (it is still at the start offset), and once the
    elapsed time has reached the duration it is exactly at the lane's
    entry of [LANES]. *)
Theorem session_player_tracks_lane_change :
  forall (storedTop : Z) (es : list Event),
    let w := snd (handleAll es (initialTouch, initialWorld storedTop)) in
    let g := game w in
    vec_x (player w)
    == lerp (laneStartX g) (laneTargetX g)
         (smoothstep (Math_min 1 (laneT g / laneDuration g))) /\
    (laneT g == 0 -> vec_x (player w) == laneStartX g) /\
    (laneDuration g <= laneT g ->
     vec_x (player w) == LANES_at (laneIndex g)).
Proof.
  intros storedTop es w g.
  destruct (session_track storedTop es) as [(_ & Ht & Hd) Hx].
  fold w in Ht, Hd, Hx. fold g in Ht, Hd, Hx.
  split; [exact Hx | split].
  - intros H0. rewrite Hx. apply lanePosition_start; assumption.
  - intros H1. rewrite Hx, <- Ht. apply lanePosition_arrived; assumption.
Qed.

(** ** The difficulty curve stays in range *)

Lemma scoreDifficulty_curve (dt : Q) (w : World) :
  0 <= dt -> curveOK (game w) ->
  curveOK (game (scoreDifficulty dt w)) /\
  score (game w) <= score (game (scoreDifficulty dt w)) /\
  difficulty (game w) <= difficulty (game (scoreDifficulty dt w)).
Proof.
  intros Hdt (Hd & Hs & Hi & Hv & Ht).
  destruct (scoreDifficulty_fields dt w) as (Ed & Ev & Ei & Es).
  destruct (scoreDifficulty_keeps dt w)
    as (_ & _ & _ & _ & _ & _ & _ & _ & _ & Et & _).
  cbv zeta in Ed, Ev, Ei, Es, Et.
  unfold curveOK. rewrite Ei, Ev, Es, Et, Ed.
  assert (0 <= dt * (8 + difficulty (game w) * 2)) by nra.
  splits; try lra.
  - apply Q.le_max_l.
  - unfold Math_max. apply Q.max_lub; lra.
Qed.

Lemma loop_curve (time : Q) (rnd : SpawnDraws) (w : World) :
  lastTime (game w) <= time -> curveOK (game w) ->
  curveOK (game (loop time rnd w)).
Proof.
  intros Hc.
  pose proof (frameDt_nonneg time (game w) Hc) as Hdt.
  apply (loop_preserves (fun w => curveOK (game w))).
  - auto.
  - intros w' H. apply scoreDifficulty_curve; assumption.
  - intros w'.
    destruct (laneInterpolation_keeps (frameDt time (game w)) w')
      as (_ & _ & _ & _ & _ & _ & _ & _ & Ev & Ed & Et & Ei & Es & _).
    cbv zeta in Ev, Ed, Et, Ei, Es. unfold curveOK.
    rewrite Ev, Ed, Et, Ei, Es. auto.
  - intros w' (Hd & Hs & Hi & Hv & Ht).
    destruct (spawnObstacles_keeps (frameDt time (game w)) rnd w')
      as (_ & _ & _ & _ & _ & _ & _ & _ & _ & Ev & Ed & Ei & Es & _).
    destruct (spawnObstacles_timer (frameDt time (game w)) rnd w') as [Hy Hn].
    cbv zeta in Ev, Ed, Ei, Es, Hy, Hn. unfold curveOK.
    rewrite Ev, Ed, Ei, Es.
    splits; try tauto.
    destruct (_ >? _).
    + destruct (Hy eq_refl) as (-> & _). lra.
    + destruct (Hn eq_refl) as (-> & _). lra.
  - intros w' _.
    destruct (obstaclesPass_keeps time (frameDt time (game w)) w')
      as (_ & _ & _ & _ & _ & _ & _ & Ev & Ed & Et & Ei & Es & _).
    cbv zeta in Ev, Ed, Et, Ei, Es. unfold curveOK.
    rewrite Ev, Ed, Et, Ei, Es. auto.
Qed.

Lemma loop_score_mono (time : Q) (rnd : SpawnDraws) (w : World) :
  lastTime (game w) <= time -> curveOK (game w) ->
  score (game w) <= score (game (loop time rnd w)) /\
  difficulty (game w) <= difficulty (game (loop time rnd w)).
Proof.
  intros Hc (Hd & Hs & _).
  pose proof (frameDt_nonneg time (game w) Hc) as Hdt.
  destruct (active (game w)) eqn:Ha.
  - destruct (loop_clock time rnd w Ha) as [(Ed & _ & _ & Es) _].
    cbv zeta in Ed, Es. rewrite Ed, Es.
    assert (0 <= frameDt time (game w) * (8 + difficulty (game w) * 2))
      by nra.
    split; lra.
  - destruct (loop_inactive time rnd w Ha) as (-> & _ & _ & -> & _).
    split; lra.
Qed.

(** X8. As long as the frame clock does not run backwards, at every
    moment of a session the difficulty is at least 1, the score and the
    spawn timer are not negative, the spawn interval is between 0.5 and
    1.2 and the speed at least 6; and a frame arriving then lowers
    neither the score nor the difficulty. *)
Theorem session_curve_in_range :
  forall (storedTop : Z) (es : list Event) (time : Q) (rnd : SpawnDraws),
    allowed clockForward es (initialTouch, initialWorld storedTop) ->
    let w := snd (handleAll es (initialTouch, initialWorld storedTop)) in
    curveOK (game w) /\
    (lastTime (game w) <= time ->
     score (game w) <= score (game (loop time rnd w)) /\
     difficulty (game w) <= difficulty (game (loop time rnd w))).
Proof.
  intros storedTop es time rnd Ha w.
  assert (H : curveOK (game w)).
  { subst w.
    apply (handleAll_preserves clockForward (fun w => curveOK (game w))).
    - intros t r w Hc. apply loop_curve, Hc.
    - intros d w. split_world w. unfold tryMoveLane, curveOK. proj.
      cases; auto.
    - intros now w. split_world w. unfold togglePause, curveOK. proj.
      cases; auto.
    - intros now w _. unfold curveOK. cbn. splits; lra.
    - exact Ha.
    - unfold curveOK. cbn. splits; lra. }
  split; [exact H |]. intros Hc. apply loop_score_mono; assumption.
Qed.

(** ** Pause, resume and the pointer *)

Lemma runFrames_stopped (fs : list (Q * SpawnDraws)) (w : World) :
  running (game w) = false \/ paused (game w) = true ->
  runFrames fs w = w.
Proof.
  intros H. induction fs as [| [time rnd] fs IH]; cbn [runFrames].
  - reflexivity.
  - rewrite (loop_stopped time rnd w H). exact IH.
Qed.

(** X9. Pausing a running game, letting any number of frames pass and
    resuming leaves the game exactly as it was, except that the frame
    clock is re-anchored at the moment of resuming: the frames in between
    change nothing, and the time spent paused never reaches the
    simulation. *)
Theorem pause_resume_cycle :
  forall (now1 now2 : Q) (fs : list (Q * SpawnDraws)) (w : World),
    active (game w) = true ->
    ui_isPaused w = false ->
    phase (game (togglePause now1 w)) = Paused /\
    runFrames fs (togglePause now1 w) = togglePause now1 w /\
    togglePause now2 (runFrames fs (togglePause now1 w))
    = set_lastTime now2 w.
Proof.
  intros now1 now2 fs w Ha Hui.
  unfold active in Ha. apply andb_true_iff in Ha. destruct Ha as [Hrp Hg].
  apply negb_true_iff in Hrp, Hg. apply orb_false_iff in Hrp.
  destruct Hrp as [Hr Hp]. apply negb_false_iff in Hr.
  assert (Hpaused : paused (game (togglePause now1 w)) = true).
  { unfold togglePause. rewrite Hr, Hg, Hp. reflexivity. }
  split; [| split].
  - unfold togglePause, phase. rewrite Hr, Hg, Hp. reflexivity.
  - apply runFrames_stopped. right. exact Hpaused.
  - rewrite runFrames_stopped by (right; exact Hpaused).
    destruct w as [[] ? ? ? ? ? ? ? ?]. cbn in Hr, Hp, Hg, Hui. subst.
    reflexivity.
Qed.

(** X10. A click resumes a paused game, re-anchoring the frame clock,
    and does nothing in any other phase: it never pauses and never
    starts a game. *)
Theorem click_only_resumes :
  forall (now : Q) (w : World),
    (phase (game w) = Paused ->
     phase (game (onClick now w)) = Running /\
     lastTime (game (onClick now w)) = now) /\
    (phase (game w) <> Paused -> onClick now w = w).
Proof using.
  intros now w. unfold onClick, phase, togglePause.
  destruct (paused (game w)), (running (game w)), (gameOver (game w));
    cbn; split; intros H; try discriminate H; try reflexivity;
    try (exfalso; apply H; reflexivity); auto.
Qed.

(** ** The keyboard *)

Lemma eqb_false (a b : string) : a <> b -> String.eqb a b = false.
Proof using. apply String.eqb_neq. Qed.

Lemma not_running_starts (now : Q) (w : World) :
  phase (game w) = Idle \/ phase (game w) = GameOver ->
  handleStartOrRestart now w = startGame now w.
Proof using.
  unfold phase, handleStartOrRestart.
  destruct (gameOver (game w)), (running (game w)), (paused (game w));
    cbn; intros [H | H]; try discriminate H; reflexivity.
Qed.

(** X11. A key press other than P or Escape, when no game is running
    (before the first start or after game over), starts a fresh run:
    running, score 0, difficulty 1, no obstacles, frame clock at the
    moment of the press, top score and store untouched; an arrow or A/D
    key takes its lane change in the same press.  P and Escape do not
    start anything. *)
Theorem key_press_starts_run :
  forall (now : Q) (code : string) (w : World),
    phase (game w) = Idle \/ phase (game w) = GameOver ->
    (code <> "KeyP"%string -> code <> "Escape"%string ->
     let w' := onKeyDown now code w in
     phase (game w') = Running /\
     score (game w') = 0 /\ difficulty (game w') = 1 /\
     obstacles (game w') = [] /\ blocksSpawned (game w') = 0%Z /\
     lastTime (game w') = now /\
     laneIndex (game w') = laneAfterStart code /\
     laneTargetX (game w') = LANES_at (laneAfterStart code) /\
     topScore (game w') = topScore (game w) /\ storage w' = storage w) /\
    (code = "KeyP"%string \/ code = "Escape"%string -> onKeyDown now code w = w).
Proof using.
  intros now code w Hph. split.
  - intros HP HE w'. subst w'. unfold onKeyDown, laneAfterStart.
    rewrite (eqb_false _ _ HP), (eqb_false _ _ HE). cbn [negb andb orb].
    rewrite (not_running_starts now w Hph).
    destruct (String.eqb code "ArrowLeft") eqn:EL;
      destruct (String.eqb code "KeyA") eqn:EA;
      destruct (String.eqb code "ArrowRight") eqn:ER;
      destruct (String.eqb code "KeyD") eqn:ED;
      try (apply String.eqb_eq in EL);
      try (apply String.eqb_eq in EA);
      try (apply String.eqb_eq in ER);
      try (apply String.eqb_eq in ED);
      try congruence;
      cbn [orb]; splits; reflexivity.
  - intros [-> | ->]; unfold onKeyDown, togglePause; cbn;
      unfold phase in Hph;
      destruct (gameOver (game w)), (running (game w)), (paused (game w));
      cbn in *; destruct Hph as [H | H]; try discriminate H; reflexivity.
Qed.

(** X12. While a game is running or paused, a key that is not bound
    (none of the arrows, A, D, P, Escape) changes nothing; and A, D and
    Escape do exactly what ArrowLeft, ArrowRight and P do. *)
Theorem unbound_keys_and_aliases :
  forall (now : Q) (code : string) (w : World),
    (running (game w) = true -> gameOver (game w) = false ->
     ~ In code ["ArrowLeft"; "KeyA"; "ArrowRight"; "KeyD"; "Escape"; "KeyP"]%string ->
     onKeyDown now code w = w) /\
    onKeyDown now "KeyA" w = onKeyDown now "ArrowLeft" w /\
    onKeyDown now "KeyD" w = onKeyDown now "ArrowRight" w /\
    onKeyDown now "Escape" w = onKeyDown now "KeyP" w.
Proof using.
  intros now code w. split; [| splits].
  intros Hr Hg Hn. unfold onKeyDown, handleStartOrRestart.
  rewrite Hr, Hg. cbn [negb orb].
  assert (E : forall k,
             In k ["ArrowLeft"; "KeyA"; "ArrowRight"; "KeyD"; "Escape"; "KeyP"]%string ->
             String.eqb code k = false).
  { intros k Hk. apply eqb_false. intros ->. apply Hn, Hk. }
  rewrite !E by (cbn; auto 10). reflexivity.
Qed.

(** ** Touch *)

(** X13. A touch that ends within 40 pixels of where it began
    horizontally, or that moved at least as far vertically as
    horizontally, only does what its start did (start a game if none is
    running); a longer, mostly horizontal one is in addition one lane
    change request, to the left when it ended left of its start. *)
Theorem tap_and_swipe :
  forall (st_now now x y x' y' : Q) (ts : TouchState) (w : World),
    let s := onTouchStart st_now now x y ts w in
    snd s = handleStartOrRestart now w /\
    (Qabs (x' - x) <= 40 \/ Qabs (x' - x) <= Qabs (y' - y) ->
     onTouchEnd x' y' (fst s) (snd s) = snd s) /\
    (40 < Qabs (x' - x) -> Qabs (y' - y) < Qabs (x' - x) ->
     (x' < x -> onTouchEnd x' y' (fst s) (snd s) = tryMoveLane (-1) (snd s)) /\
     (x <= x' -> onTouchEnd x' y' (fst s) (snd s) = tryMoveLane 1 (snd s))).
Proof using.
  intros st_now now x y x' y' ts w s. subst s.
  unfold onTouchStart, onTouchEnd. cbn [fst snd sx sy].
  split; [reflexivity | split].
  - intros [H | H].
    + apply Qgtb_false in H. rewrite H, andb_false_r. reflexivity.
    + apply Qgtb_false in H. rewrite H. reflexivity.
  - intros H1 H2. apply Qgtb_true in H1, H2. rewrite H1, H2. cbn [andb].
    split; intros H.
    + assert (E : (x' - x <? 0) = true) by (apply Qltb_true; lra).
      rewrite E. reflexivity.
    + assert (E : (x' - x <? 0) = false) by (apply Qltb_false; lra).
      rewrite E. reflexivity.
Qed.

(** ** What is spawned *)


(** ** Geometry of the collision test *)

Lemma sq_ge (a r : Q) : 0 <= r -> r <= a \/ a <= - r -> r * r <= a * a.
Proof using. intros Hr [H | H]; nra. Qed.

Lemma clamp_gap_low (v lo hi r : Q) :
  lo <= hi -> v + r <= lo -> r <= clamp v lo hi - v.
Proof using.
  intros H Hg.
  destruct (clamp_cases v lo hi H) as [[H1 E] | [[H1 E] | [H1 E]]];
    rewrite E; lra.
Qed.

Lemma clamp_gap_high (v lo hi r : Q) :
  lo <= hi -> hi + r <= v -> clamp v lo hi - v <= - r.
Proof using.
  intros H Hg.
  destruct (clamp_cases v lo hi H) as [[H1 E] | [[H1 E] | [H1 E]]];
    rewrite E; lra.
Qed.

Lemma clamp_inside (v lo hi : Q) : lo <= v <= hi -> clamp v lo hi == v.
Proof using.
  intros [H0 H1]. assert (H : lo <= hi) by lra.
  destruct (clamp_cases v lo hi H) as [[H2 E] | [[H2 E] | [H2 E]]];
    rewrite E; lra.
Qed.

Lemma intersectsBox_separated_z (box : Box3) (px py pz r : Q) :
  0 <= r ->
  vec_z (box_min box) <= vec_z (box_max box) ->
  pz + r <= vec_z (box_min box) \/ vec_z (box_max box) + r <= pz ->
  intersectsBox box px py pz r = false.
Proof using.
  intros Hr Hwf Hgap. unfold intersectsBox. apply Qltb_false.
  set (dx := clamp px _ _ - px). set (dy := clamp py _ _ - py).
  set (dz := clamp pz _ _ - pz).
  assert (Hz : r * r <= dz * dz).
  { apply sq_ge; [exact Hr |]. subst dz. destruct Hgap as [H | H].
    - left. apply clamp_gap_low; assumption.
    - right. apply clamp_gap_high; assumption. }
  assert (0 <= dx * dx) by nra. assert (0 <= dy * dy) by nra.
  lra.
Qed.


(** ** Camera and scenery *)

Lemma frameDt_range (time : Q) (g : GameState) :
  lastTime g <= time -> 0 <= frameDt time g <= 0.05.
Proof using. intros H. split; [apply frameDt_nonneg, H | apply frameDt_le]. Qed.

Lemma ease_between (x T k dt : Q) :
  0 <= dt <= 0.05 -> 0 <= k <= 6 -> between x (x + (T - x) * k * dt) T.
Proof using.
  intros [Hd0 Hd1] [Hk0 Hk1].
  assert (Hf : 0 <= k * dt /\ k * dt <= 0.3) by (split; nra).
  destruct Hf as [Hf0 Hf1].
  assert (E : x + (T - x) * k * dt == x + (T - x) * (k * dt)) by ring.
  set (f := k * dt) in *.
  unfold between.
  destruct (Qlt_le_dec x T) as [H | H]; [left | right]; rewrite E;
    split; nra.
Qed.


Lemma worldMovement_lines (forward : Q) (zs : list Q) :
  let zs' := map (fun z => let z' := z + forward in
                           if z' >? 10 then -115 else z') zs in
  Forall (fun z => z <= 10) zs' /\
  (0 <= forward -> Forall (fun z => -115 <= z) zs ->
   Forall (fun z => -115 <= z) zs').
Proof using.
  cbv zeta. induction zs as [| z zs [IH1 IH2]]; cbn [map].
  - split; constructor.
  - split.
    + constructor; [| exact IH1].
      destruct (_ >? 10) eqn:E; [lra | apply Qgtb_false, E].
    + intros Hf Hall. inversion Hall; subst.
      constructor; [| auto].
      destruct (_ >? 10); lra.
Qed.

(** X17. After the world movement of a frame the ground plane is not in
    front of the origin and no lane line is past depth 10, the three
    lane lines are still three; and when the scenery moves forward the
    ground never gets behind -180 nor a lane line behind -115. *)
Theorem scenery_wraps_in_range :
  forall (forward : Q) (s : Scenery),
    let s' := worldMovement forward s in
    ground_z s' <= 0 /\
    Forall (fun z => z <= 10) (laneLines_z s') /\
    List.length (laneLines_z s') = List.length (laneLines_z s) /\
    (0 <= forward ->
     (-180 <= ground_z s -> -180 <= ground_z s') /\
     (Forall (fun z => -115 <= z) (laneLines_z s) ->
      Forall (fun z => -115 <= z) (laneLines_z s'))).
Proof using.
  intros forward s s'. subst s'. unfold worldMovement.
  cbn [ground_z laneLines_z].
  destruct (worldMovement_lines forward (laneLines_z s)) as [L1 L2].
  split; [| split; [exact L1 | split; [apply length_map |]]].
  - destruct (_ >? 0) eqn:E; [lra | apply Qgtb_false, E].
  - intros Hf. split; [| apply L2, Hf].
    intros Hg. destruct (_ >? 0); lra.
Qed.

(** ** Speed lines and rain *)

Lemma updateSpeedLines_ok (dt forward L : Q) (ls : list SpeedLine) :
  0 <= dt ->
  Forall (fun sl => speedLineOK sl /\ L <= life sl) ls ->
  Forall (fun sl => speedLineOK sl /\ L + dt <= life sl)
    (updateSpeedLines dt forward ls).
Proof using.
  intros Hdt. induction ls as [| sl ls IH]; intros Hall;
    cbn [updateSpeedLines].
  - constructor.
  - inversion Hall as [| ? ? [([Hl0 Hl1] & [Hm0 Hm1] & Ho) HL] Hrest]; subst.
    specialize (IH Hrest).
    destruct (_ >? _) eqn:E; [exact IH |].
    apply Qgtb_false in E. constructor; [| exact IH].
    unfold speedLineOK. cbn [life maxLife sl_opacity].
    split; [| lra].
    split; [lra | split; [lra |]].
    unfold Math_max. split; [apply Q.le_max_l |].
    apply Q.max_lub; [lra |].
    assert (0 <= (life sl + dt) / maxLife sl)
      by (apply Qle_shift_div_l; lra).
    lra.
Qed.

Lemma updateSpeedLines_length (dt forward : Q) (ls : list SpeedLine) :
  (List.length (updateSpeedLines dt forward ls) <= List.length ls)%nat.
Proof using.
  induction ls as [| sl ls IH]; cbn [updateSpeedLines List.length].
  - lia.
  - destruct (_ >? _); cbn [List.length]; lia.
Qed.

Lemma updateRainLines_ok (dt pz : Q) (ls : list RainLine) :
  Forall (rainLineOK pz) ls -> Forall (rainLineOK pz) (updateRainLines dt pz ls).
Proof using.
  induction ls as [| rl ls IH]; intros Hall; cbn [updateRainLines].
  - constructor.
  - inversion Hall as [| ? ? (Hz & Hs & [Ho0 Ho1]) Hrest]; subst.
    specialize (IH Hrest).
    destruct (_ >? _) eqn:E; [exact IH |].
    apply Qgtb_false in E. constructor; [| exact IH].
    unfold rainLineOK. cbn [rl_z rl_speed rl_opacity] in *.
    split; [exact E | split; [exact Hs | lra]].
Qed.

Lemma updateRainLines_length (dt pz : Q) (ls : list RainLine) :
  (List.length (updateRainLines dt pz ls) <= List.length ls)%nat.
Proof using.
  induction ls as [| rl ls IH]; cbn [updateRainLines List.length].
  - lia.
  - destruct (_ >? _); cbn [List.length]; lia.
Qed.

Lemma spawnSpeedLine_ok (intensity : Q) (rnd : SpeedLineDraws) (p : Vector3) :
  inUnit (d_life rnd) -> speedLineOK (spawnSpeedLine intensity rnd p).
Proof using.
  intros [H0 H1]. unfold speedLineOK, spawnSpeedLine.
  cbn [life maxLife sl_opacity]. splits; lra.
Qed.

Lemma spawnRainLine_ok (rnd : RainDraws) (p : Vector3) :
  inUnit (d_rz rnd) -> inUnit (d_speed rnd) ->
  rainLineOK (vec_z p) (spawnRainLine rnd p).
Proof using.
  intros [H0 H1] [H2 H3]. unfold rainLineOK, spawnRainLine.
  cbn [rl_z rl_speed rl_opacity]. splits; lra.
Qed.

Lemma Forall_weaken_life (ls : list SpeedLine) :
  Forall speedLineOK ls ->
  Forall (fun sl => speedLineOK sl /\ 0 <= life sl) ls.
Proof using.
  intros H. eapply Forall_impl; [| exact H]. cbn.
  intros sl Hok. split; [exact Hok | apply Hok].
Qed.


Lemma fadeSpeedLines_ok (steps : list (Q * Q)) :
  forall (L : Q) (ls : list SpeedLine),
    Forall (fun s => 0 <= fst s) steps ->
    Forall (fun sl => speedLineOK sl /\ L <= life sl) ls ->
    Forall (fun sl => speedLineOK sl /\ L + elapsedOf steps <= life sl)
      (fadeSpeedLines steps ls).
Proof using.
  induction steps as [| [dt forward] steps IH]; intros L ls Hsteps Hall;
    cbn [fadeSpeedLines elapsedOf fold_right fst].
  - eapply Forall_impl; [| exact Hall]. cbn. intros sl [H1 H2].
    split; [exact H1 | lra].
  - inversion Hsteps as [| ? ? Hdt Hrest]; subst. cbn [fst] in Hdt.
    pose proof (IH (L + dt) _ Hrest
                  (updateSpeedLines_ok dt forward L ls Hdt Hall)) as H.
    eapply Forall_impl; [| exact H]. cbn. intros sl [H1 H2].
    split; [exact H1 |]. fold (elapsedOf steps). lra.
Qed.


(** ** Every obstacle lands *)

Lemma stepObstacleMany_landed (steps : list (Q * Q * Q)) (i : nat) :
  forall o, landed o = true -> landed (stepObstacleMany steps i o) = true.
Proof.
  induction steps as [| [[time dt] forward] steps IH]; intros o H;
    cbn [stepObstacleMany].
  - exact H.
  - apply IH. apply (stepObstacle_later time dt forward i o). exact H.
Qed.

Lemma fall_bound (steps : list (Q * Q * Q)) (i : nat) :
  forall (o : Obstacle) (S : Q),
    Forall (fun s => 0 <= snd (fst s)) steps ->
    0 <= S ->
    falling o = true -> landed o = false ->
    vec_y (scale (mesh o)) = 1 ->
    vy o <= -25 * S ->
    vec_y (position (mesh o)) <= 11 - 12.5 * S * S ->
    steps <> [] \/ 1 < vec_y (position (mesh o)) ->
    let o' := stepObstacleMany steps i o in
    landed o' = true \/
    1 < vec_y (position (mesh o'))
      <= 11 - 12.5 * (S + fallTime steps) * (S + fallTime steps).
Proof.
  induction steps as [| [[time dt] forward] steps IH];
    intros o S Hsteps HS Hf Hl Hsc Hv Hy Hne;
    cbn [stepObstacleMany fallTime fold_right fst snd].
  - right. destruct Hne as [C | H1]; [contradiction |].
    split; [exact H1 | nra].
  - inversion Hsteps as [| ? ? Hdt Hrest]; subst. cbn [fst snd] in Hdt.
    fold (fallTime steps).
    destruct (stepObstacle_falling time dt forward i o Hf Hl)
      as (Hland & Hfall & Esc & _).
    cbv zeta in Hland, Hfall. rewrite Hsc in Hland, Hfall.
    set (y' := vec_y (position (mesh o)) + (vy o + -25 * dt) * dt) in *.
    assert (Hy' : y' <= 11 - 12.5 * (S + dt) * (S + dt)).
    { subst y'. nra. }
    destruct (Qlt_le_dec (0.5 + 1 / 2) y') as [Hgt | Hle].
    + destruct (Hfall Hgt) as (E1 & E2 & E3 & E4).
      assert (Ehalf : 0.5 + 1 / 2 == 1) by reflexivity.
      assert (H1 : 1 < y') by (rewrite <- Ehalf; exact Hgt).
      set (o1 := stepObstacle time dt forward i o) in *.
      assert (HS' : 0 <= S + dt) by lra.
      assert (Esc' : vec_y (scale (mesh o1)) = 1)
        by (rewrite Esc; exact Hsc).
      assert (Hv' : vy o1 <= -25 * (S + dt)) by (rewrite E2; lra).
      assert (Hy1 : vec_y (position (mesh o1))
                    <= 11 - 12.5 * (S + dt) * (S + dt))
        by (rewrite E1; exact Hy').
      assert (H1' : 1 < vec_y (position (mesh o1)))
        by (rewrite E1; exact H1).
      destruct (IH o1 (S + dt) Hrest HS' E4 E3 Esc' Hv' Hy1 (or_intror H1'))
        as [L | [B1 B2]].
      * left. exact L.
      * right. split; [exact B1 |].
        eapply Qle_trans; [exact B2 |]. apply Qle_lteq. right. ring.
    + left. apply stepObstacleMany_landed. apply (Hland Hle).
Qed.

(** X20. No obstacle hovers: an obstacle of unit scale that falls from
    at most 11 above the ground, with no upward velocity, has landed
    once 0.9 s of simulated time have passed, whatever the size of the
    frames. *)
Theorem falling_obstacle_lands :
  forall (steps : list (Q * Q * Q)) (i : nat) (o : Obstacle),
    Forall (fun s => 0 <= snd (fst s)) steps ->
    falling o = true -> landed o = false ->
    vec_y (scale (mesh o)) = 1 ->
    vy o <= 0 ->
    vec_y (position (mesh o)) <= 11 ->
    0.9 <= fallTime steps ->
    landed (stepObstacleMany steps i o) = true.
Proof.
  intros steps i o Hsteps Hf Hl Hsc Hv Hy Ht.
  assert (Hne : steps <> []).
  { intros ->. cbn in Ht. lra. }
  destruct (fall_bound steps i o 0 Hsteps) as [L | [B1 B2]];
    try assumption; try lra; auto.
  exfalso. nra.
Qed.

(** ** The numbers of the HUD *)

Lemma length_digits (d : Decimal.uint) :
  String.length (NilEmpty.string_of_uint d) = Decimal.nb_digits d.
Proof using. induction d; cbn; congruence. Qed.

Lemma of_uint_acc_lt (d : Decimal.uint) :
  forall acc,
    (Z.pos (Pos.of_uint_acc d acc)
     < (Z.pos acc + 1) * 10 ^ Z.of_nat (Decimal.nb_digits d))%Z.
Proof using.
  induction d; intros acc; cbn [Pos.of_uint_acc Decimal.nb_digits];
    [ cbn; lia | .. ];
    rewrite Nat2Z.inj_succ, Z.pow_succ_r by lia;
    (eapply Z.lt_le_trans; [ apply IHd |]);
    assert (0 < 10 ^ Z.of_nat (Decimal.nb_digits d))%Z
      by (apply Z.pow_pos_nonneg; lia);
    nia.
Qed.

(** A numeral of [k] digits is below [10^k]. *)
Lemma of_uint_lt (d : Decimal.uint) :
  (Z.of_uint d < 10 ^ Z.of_nat (Decimal.nb_digits d))%Z.
Proof using.
  unfold Z.of_uint.
  induction d; cbn [Pos.of_uint Decimal.nb_digits];
    [ cbn; lia | .. ];
    rewrite Nat2Z.inj_succ, Z.pow_succ_r by lia;
    assert (0 < 10 ^ Z.of_nat (Decimal.nb_digits d))%Z
      by (apply Z.pow_pos_nonneg; lia);
    [ lia | .. ];
    rewrite N2Z.inj_pos;
    (eapply Z.lt_le_trans; [ apply of_uint_acc_lt |]); nia.
Qed.

Lemma hudNumber_small_length :
  forall n : Z, (0 <= n < 10000)%Z -> String.length (hudNumber n) = 4%nat.
Proof using.
  assert (E : forallb
                (fun i => (String.length (hudNumber (Z.of_nat i)) =? 4)%nat)
                (seq 0 (Z.to_nat 10000)) = true) by (vm_compute; reflexivity).
  intros n Hn. rewrite forallb_forall in E.
  specialize (E (Z.to_nat n)). rewrite Z2Nat.id in E by lia.
  apply Nat.eqb_eq, E, in_seq. lia.
Qed.

Lemma hudNumber_digits (p : positive) :
  let t := NilEmpty.string_of_uint (Pos.to_uint p) in
  (String.length t < 4)%nat /\ (Z.pos p < 1000)%Z /\
  (hudNumber (Z.pos p) = String.append "0" t \/
   hudNumber (Z.pos p) = String.append "00" t \/
   hudNumber (Z.pos p) = String.append "000" t) \/
  (4 <= String.length t)%nat /\ hudNumber (Z.pos p) = t.
Proof using.
  intros t. unfold hudNumber, padStart. cbn [Number_toString]. fold t.
  pose proof (of_uint_lt (Pos.to_uint p)) as Hlt.
  unfold Z.of_uint in Hlt. rewrite DecimalPos.Unsigned.of_to in Hlt.
  rewrite <- length_digits in Hlt. fold t in Hlt. cbn [Z.of_N] in Hlt.
  destruct (String.length t) as [| [| [| [| k]]]] eqn:Ek.
  - exfalso. cbn in Hlt. lia.
  - left. cbn in Hlt |- *. split; [lia |]. split; [lia |]. auto.
  - left. cbn in Hlt |- *. split; [lia |]. split; [lia |]. auto.
  - left. cbn in Hlt |- *. split; [lia |]. split; [lia |]. auto.
  - right. cbn. split; [lia | reflexivity].
Qed.


End Frame.

(** ** Closed instances *)


(** C1. A real drop: the obstacle spawned from [sampleDraws] at
    difficulty 1 is 1.34 high; stepped at 50 ms per frame it lands in the
    fifteenth frame, at height 1, the value of [0.5 + scale.y / 2] for
    the unit scale every mesh has.  That is neither half the obstacle's
    height above the ground plane [y = 0] nor half its height above 0.5. *)
Theorem C1_resting_height_ignores_obstacle_height :
  let w := runFrames noWobble Box3_ofUnrotated (framesEvery 50 15)
             justSpawned in
  exists o,
    obstacles (game w) = [o] /\ landed o = true /\ falling o = false /\
    vy o == 0 /\
    height (geometry (mesh o)) == 1.34 /\
    vec_y (position (mesh o)) == 1 /\
    ~ vec_y (position (mesh o)) == 0 + height (geometry (mesh o)) / 2 /\
    ~ vec_y (position (mesh o)) == 0.5 + height (geometry (mesh o)) / 2.
Proof.
  cbv zeta. eexists. split; [vm_compute; reflexivity |].
  repeat split; try (vm_compute; reflexivity);
    intros H; vm_compute in H; discriminate H.
Qed.

(** The claim C2 fails while paused and before the first start: the
    phase is not Running, yet the request changes the lane, also when it
    comes through the key handler. *)
Lemma C2_counterexample_move_while_paused :
  ~ (phase (game pausedRun) <> Running ->
     tryMoveLane (-1) pausedRun = pausedRun) /\
  phase (game pausedRun) = Paused /\
  laneIndex (game pausedRun) = 1%Z /\
  laneIndex (game (tryMoveLane (-1) pausedRun)) = 0%Z /\
  laneIndex (game (onKeyDown 5 "ArrowLeft" pausedRun)) = 0%Z /\
  phase (game (initialWorld 0)) = Idle /\
  laneIndex (game (tryMoveLane (-1) (initialWorld 0))) = 0%Z.
Proof.
  split; [| repeat split; reflexivity].
  intros H.
  assert (E : tryMoveLane (-1) pausedRun = pausedRun).
  { apply H. intros C. discriminate C. }
  apply (f_equal (fun w => laneIndex (game w))) in E.
  vm_compute in E. discriminate E.
Qed.

Lemma C2_move_request_witness :
  gameOver (game pausedRun) = false /\
  (0 <= laneIndex (game pausedRun) + -1 <= 2)%Z /\
  laneIndex (game (tryMoveLane (-1) pausedRun)) = 0%Z /\
  laneT (game (tryMoveLane (-1) pausedRun)) = 0.
Proof.
  assert (Hg : gameOver (game pausedRun) = false) by reflexivity.
  assert (Hi : (0 <= laneIndex (game pausedRun) + -1 <= 2)%Z)
    by (vm_compute; split; discriminate).
  destruct (C2_move_request (-1) pausedRun) as [_ H].
  destruct (H Hg Hi) as (E1 & _ & _ & _ & E2 & _).
  exact (conj Hg (conj Hi (conj E1 E2))).
Defined.

(** The claim C3 fails for a score whose floor does not exceed the top
    score: 100.5 against 100 is written to the store although its floor,
    100, does not exceed 100, and the top score becomes the unrounded
    100.5. *)
Lemma C3_counterexample_unfloored_compare :
  let w := withScore 100.5 100 freshRun in
  ~ (storage (endGame w) <> storage w ->
     topScore (game w) < inject_Z (Math_floor (score (game w)))) /\
  inject_Z (Math_floor (score (game w))) <= topScore (game w) /\
  topScore (game (endGame w)) = 100.5 /\
  storage w = [] /\
  storage (endGame w) = [100%Z].
Proof.
  cbv zeta. split; [| repeat split; try reflexivity].
  - intros H.
    assert (C : topScore (game (withScore 100.5 100 freshRun))
                < inject_Z (Math_floor (score (game (withScore 100.5 100 freshRun))))).
    { apply H. intros E. discriminate E. }
    vm_compute in C. discriminate C.
  - vm_compute. discriminate.
Qed.

Lemma C3_top_score_at_game_over_witness :
  let w := withScore 120.7 100 freshRun in
  score (game w) == 120.7 /\ topScore (game w) == 100 /\
  storage (endGame w) = [120%Z] /\ ui_topScore (endGame w) = 120%Z.
Proof.
  cbv zeta.
  assert (Hs : score (game (withScore 120.7 100 freshRun)) == 120.7)
    by reflexivity.
  assert (Ht : topScore (game (withScore 120.7 100 freshRun)) == 100)
    by reflexivity.
  destruct (C3_top_score_at_game_over noWobble Box3_ofUnrotated)
    as (_ & H & _).
  destruct (H (withScore 120.7 100 freshRun) Hs Ht) as [E1 E2].
  exact (conj Hs (conj Ht (conj E1 E2))).
Defined.

Lemma C4_landed_is_final_witness :
  let w := withObstacles [landedCube 0 (-20)] freshRun in
  let w' := runFrames noWobble Box3_ofUnrotated (framesEvery 16 2) w in
  let o := landedCube 0 (-20) in
  let o' := hd o (obstacles (game w')) in
  distinctObjects w /\ In o (obstacles (game w)) /\ landed o = true /\
  In o' (obstacles (game w')) /\
  object_id (mesh o') = object_id (mesh o) /\
  landed o' = true /\
  vec_y (position (mesh o')) = vec_y (position (mesh o)).
Proof.
  cbv zeta.
  set (w := withObstacles [landedCube 0 (-20)] freshRun).
  set (w' := runFrames noWobble Box3_ofUnrotated (framesEvery 16 2) w).
  set (o := landedCube 0 (-20)).
  set (o' := hd o (obstacles (game w'))).
  assert (Hd : distinctObjects w).
  { split.
    - cbn. constructor; [intros [] | constructor].
    - repeat constructor. }
  assert (Ho : In o (obstacles (game w))) by (left; reflexivity).
  assert (Hl : landed o = true) by reflexivity.
  assert (Ho' : In o' (obstacles (game w'))).
  { vm_compute. left. reflexivity. }
  assert (Hid : object_id (mesh o') = object_id (mesh o)).
  { vm_compute. reflexivity. }
  destruct (C4_landed_is_final noWobble Box3_ofUnrotated) as (_ & H & _).
  destruct (H (framesEvery 16 2) w o o' Hd Ho Hl Ho' Hid) as (E1 & _ & E2).
  exact (conj Hd (conj Ho (conj Hl (conj Ho' (conj Hid (conj E1 E2)))))).
Defined.

Lemma C5_collision_detection_witness :
  let w := withObstacles [landedCube 0 1] freshRun in
  let o := landedCube 0 1 in
  obstacles (game w) = [] ++ o :: [] /\
  hits noWobble Box3_ofUnrotated 16 0.016 (speed (game w) * 0.016)
    (player w) 0 o = true /\
  gameOver (game (obstaclesPass noWobble Box3_ofUnrotated 16 0.016 w)) = true /\
  running (game (obstaclesPass noWobble Box3_ofUnrotated 16 0.016 w)) = false.
Proof.
  cbv zeta.
  set (w := withObstacles [landedCube 0 1] freshRun).
  set (o := landedCube 0 1).
  assert (Hos : obstacles (game w) = [] ++ o :: []) by reflexivity.
  assert (Hhit : hits noWobble Box3_ofUnrotated 16 0.016
                   (speed (game w) * 0.016) (player w) (List.length (@nil Obstacle)) o
                 = true)
    by (vm_compute; reflexivity).
  assert (Hpost : forall k o', nth_error (@nil Obstacle) k = Some o' ->
            hits noWobble Box3_ofUnrotated 16 0.016
              (speed (game w) * 0.016) (player w)
              (S (List.length (@nil Obstacle)) + k)%nat o' = false).
  { intros k o' Hk. destruct k; discriminate Hk. }
  destruct (C5_collision_detection noWobble Box3_ofUnrotated) as (_ & H & _).
  destruct (H 16 0.016 w [] [] o Hos Hhit Hpost) as (E1 & E2 & _).
  exact (conj Hos (conj Hhit (conj E1 E2))).
Defined.

Lemma C6_lane_advance_witness :
  let w := tryMoveLane (-1) freshRun in
  laneT (game w) < laneDuration (game w) /\
  laneT (game (laneInterpolation 0.016 w)) = laneT (game w) + 0.016 /\
  vec_x (player (laneInterpolation 0.016 w))
  = lerp 0 (-3) (smoothstep (Math_min 1 ((0 + 0.016) / 0.1))).
Proof.
  cbv zeta.
  set (w := tryMoveLane (-1) freshRun).
  assert (Hlt : laneT (game w) < laneDuration (game w)) by reflexivity.
  destruct (C6_lane_advance noWobble Box3_ofUnrotated) as [H _].
  destruct (H 0.016 w) as (Hm & _).
  destruct (Hm Hlt) as [E1 E2].
  exact (conj Hlt (conj E1 E2)).
Defined.


Lemma C10_one_spawn_per_frame_witness :
  let run := runFrames noWobble Box3_ofUnrotated in
  spawnTimer (game freshRun) == 0 /\
  blocksSpawned (game (run (framesEvery 50 22) freshRun)) = 0%Z /\
  blocksSpawned
    (game (loop noWobble Box3_ofUnrotated 1150 sampleDraws
             (run (framesEvery 50 22) freshRun))) = 1%Z /\
  spawnInterval
    (game (loop noWobble Box3_ofUnrotated 1150 sampleDraws
             (run (framesEvery 50 22) freshRun)))
  < simulatedTime noWobble Box3_ofUnrotated
      (framesEvery 50 22 ++ [(1150, sampleDraws)]) freshRun.
Proof.
  cbv zeta.
  assert (Ht : spawnTimer (game freshRun) == 0) by reflexivity.
  assert (Hc : blocksSpawned
                 (game (runFrames noWobble Box3_ofUnrotated
                          (framesEvery 50 22) freshRun))
               = blocksSpawned (game freshRun))
    by (vm_compute; reflexivity).
  assert (Hs : blocksSpawned
                 (game (loop noWobble Box3_ofUnrotated 1150 sampleDraws
                          (runFrames noWobble Box3_ofUnrotated
                             (framesEvery 50 22) freshRun)))
               = (blocksSpawned (game freshRun) + 1)%Z)
    by (vm_compute; reflexivity).
  destruct (C10_one_spawn_per_frame noWobble Box3_ofUnrotated) as [_ H].
  destruct (H (framesEvery 50 22) 1150 sampleDraws freshRun Ht Hc Hs)
    as [_ E].
  exact (conj Ht (conj Hc (conj Hs E))).
Defined.

(** The steady run of C8 with the rounding of doubles: frame 72 is still
    the one that spawns. *)
#[warnings="-inexact-float"]
Lemma spawn_clock_binary64 :
  Binary64.blocksSpawned (Nat.iter 71 (Binary64.tick 0.016) Binary64.fresh)
  = 0%Z /\
  Binary64.blocksSpawned (Nat.iter 72 (Binary64.tick 0.016) Binary64.fresh)
  = 1%Z /\
  Binary64.blocksSpawned (Nat.iter 75 (Binary64.tick 0.016) Binary64.fresh)
  = 1%Z.
Proof. repeat split; vm_compute; reflexivity. Qed.

(** ** Instances of the properties beyond the claims *)

Lemma sampleDraws_inUnit : drawsInUnit sampleDraws.
Proof. unfold drawsInUnit, inUnit, sampleDraws. cbn. repeat split; lra. Qed.


Lemma sampleSession_clockForward :
  allowed noWobble Box3_ofUnrotated clockForward sampleSession
    (initialTouch, initialWorld 0).
Proof.
  cbn [allowed sampleSession clockForward].
  repeat split; vm_compute; discriminate.
Qed.

Lemma session_curve_in_range_witness :
  allowed noWobble Box3_ofUnrotated clockForward sampleSession
    (initialTouch, initialWorld 0) /\
  curveOK (game (snd (handleAll noWobble Box3_ofUnrotated sampleSession
                        (initialTouch, initialWorld 0)))).
Proof.
  exact (conj sampleSession_clockForward
           (proj1 (session_curve_in_range noWobble Box3_ofUnrotated 0
                     sampleSession 64 sampleDraws
                     sampleSession_clockForward))).
Defined.

Lemma pause_resume_cycle_witness :
  active (game freshRun) = true /\ ui_isPaused freshRun = false /\
  togglePause 5000
    (runFrames noWobble Box3_ofUnrotated (framesEvery 16 3)
       (togglePause 100 freshRun))
  = set_lastTime 5000 freshRun.
Proof.
  assert (Ha : active (game freshRun) = true) by reflexivity.
  assert (Hu : ui_isPaused freshRun = false) by reflexivity.
  exact (conj Ha (conj Hu
           (proj2 (proj2 (pause_resume_cycle noWobble Box3_ofUnrotated
                            100 5000 (framesEvery 16 3) freshRun Ha Hu))))).
Defined.

Lemma click_only_resumes_witness :
  phase (game pausedRun) = Paused /\
  phase (game (onClick 7 pausedRun)) = Running /\
  lastTime (game (onClick 7 pausedRun)) = 7.
Proof.
  assert (Hp : phase (game pausedRun) = Paused) by reflexivity.
  exact (conj Hp (proj1 (click_only_resumes 7 pausedRun) Hp)).
Defined.

Lemma key_press_starts_run_witness :
  phase (game (initialWorld 0)) = Idle /\
  phase (game (onKeyDown 3 "ArrowLeft" (initialWorld 0))) = Running /\
  laneIndex (game (onKeyDown 3 "ArrowLeft" (initialWorld 0))) = 0%Z.
Proof.
  assert (Hp : phase (game (initialWorld 0)) = Idle) by reflexivity.
  assert (H1 : "ArrowLeft"%string <> "KeyP"%string) by discriminate.
  assert (H2 : "ArrowLeft"%string <> "Escape"%string) by discriminate.
  destruct (proj1 (key_press_starts_run 3 "ArrowLeft"%string (initialWorld 0)
                     (or_introl Hp)) H1 H2)
    as (E1 & _ & _ & _ & _ & _ & E2 & _).
  exact (conj Hp (conj E1 E2)).
Defined.

Lemma unbound_keys_and_aliases_witness :
  running (game freshRun) = true /\ gameOver (game freshRun) = false /\
  onKeyDown 9 "Space" freshRun = freshRun.
Proof.
  assert (Hr : running (game freshRun) = true) by reflexivity.
  assert (Hg : gameOver (game freshRun) = false) by reflexivity.
  assert (Hn : ~ In "Space"%string
                 ["ArrowLeft"; "KeyA"; "ArrowRight"; "KeyD"; "Escape";
                  "KeyP"]%string).
  { cbn. intros [H | [H | [H | [H | [H | [H | []]]]]]]; discriminate H. }
  exact (conj Hr (conj Hg
           (proj1 (unbound_keys_and_aliases 9 "Space"%string freshRun) Hr Hg Hn))).
Defined.

Lemma tap_and_swipe_witness :
  let s := onTouchStart 1 2 100 100 initialTouch freshRun in
  40 < Qabs (30 - 100) /\ Qabs (110 - 100) < Qabs (30 - 100) /\ 30 < 100 /\
  onTouchEnd 30 110 (fst s) (snd s) = tryMoveLane (-1) (snd s).
Proof.
  cbv zeta.
  assert (H1 : 40 < Qabs (30 - 100)) by reflexivity.
  assert (H2 : Qabs (110 - 100) < Qabs (30 - 100)) by reflexivity.
  assert (H3 : 30 < 100) by reflexivity.
  destruct (tap_and_swipe 1 2 100 100 30 110 initialTouch freshRun)
    as (_ & _ & H).
  exact (conj H1 (conj H2 (conj H3 (proj1 (H H1 H2) H3)))).
Defined.




Lemma scenery_wraps_in_range_witness :
  0 <= 0.5 /\ -180 <= ground_z initialScenery /\
  -180 <= ground_z (worldMovement 0.5 initialScenery).
Proof.
  assert (Hf : 0 <= 0.5) by (vm_compute; discriminate).
  assert (Hg : -180 <= ground_z initialScenery) by (vm_compute; discriminate).
  destruct (scenery_wraps_in_range 0.5 initialScenery) as (_ & _ & _ & H).
  exact (conj Hf (conj Hg (proj1 (H Hf) Hg))).
Defined.

Lemma sampleAmbientDraws_inUnit : ambientDrawsInUnit sampleAmbientDraws.
Proof.
  unfold ambientDrawsInUnit, inUnit. cbn. repeat split; lra.
Qed.



Lemma falling_obstacle_lands_witness :
  let o := spawnedObstacle 0 sampleDraws (game freshRun) in
  let steps := List.repeat (0, 0.05, 0.3) 18 in
  Forall (fun s : Q * Q * Q => 0 <= snd (fst s)) steps /\
  vec_y (position (mesh o)) <= 11 /\ 0.9 <= fallTime steps /\
  landed (stepObstacleMany noWobble steps 0 o) = true.
Proof.
  cbv zeta.
  set (o := spawnedObstacle 0 sampleDraws (game freshRun)).
  set (steps := List.repeat (0, 0.05, 0.3) 18).
  assert (Hs : Forall (fun s : Q * Q * Q => 0 <= snd (fst s)) steps).
  { apply Forall_forall. intros s Hin. apply repeat_spec in Hin. subst s.
    cbn. lra. }
  assert (Hf : falling o = true) by reflexivity.
  assert (Hl : landed o = false) by reflexivity.
  assert (Hsc : vec_y (scale (mesh o)) = 1) by reflexivity.
  assert (Hv : vy o <= 0) by (vm_compute; discriminate).
  assert (Hy : vec_y (position (mesh o)) <= 11) by (vm_compute; discriminate).
  assert (Ht : 0.9 <= fallTime steps) by (vm_compute; discriminate).
  exact (conj Hs (conj Hy (conj Ht
           (falling_obstacle_lands noWobble steps 0 o Hs Hf Hl Hsc Hv Hy Ht)))).
Defined.

